(** * swift-ring-tool: the ring transforms and the relocation planner

    A shallow embedding of [swiftringtool.py] and the properties of its
    partition-table transforms ([ring_shift_power], [ring_reset_partitions])
    and of its relocation planner ([get_acc_cont_obj], [find_all_files]). *)

From Stdlib Require Import ZArith Lia Bool Ascii String List.
From Stdlib Require Import Numbers.DecimalString Numbers.DecimalNat.
From stdpp Require Import base list strings.

Local Open Scope string_scope.
Local Open Scope list_scope.
Local Open Scope Z_scope.

(** ** Python values and control flow *)

Module Py.

(** The exception classes the program can raise.  [OtherError] stands for
    the exceptions of the collaborators (sqlite3, the brokers, the ring
    loader), identified by their class name. *)
Inductive pyexn : Type :=
  | TypeError
  | OverflowError
  | IOError
  | EOFError
  | AttributeError
  | IndexError
  | ValueError
  | KeyError
  | OtherError (cls : string).

Definition exn_name (e : pyexn) : string :=
  match e with
  | TypeError => "TypeError"
  | OverflowError => "OverflowError"
  | IOError => "IOError"
  | EOFError => "EOFError"
  | AttributeError => "AttributeError"
  | IndexError => "IndexError"
  | ValueError => "ValueError"
  | KeyError => "KeyError"
  | OtherError cls => cls
  end.

(** A Python expression either evaluates to a value or raises. *)
Inductive outcome (A : Type) : Type :=
  | Return (a : A)
  | Raise (e : pyexn).
Arguments Return {A} a.
Arguments Raise {A} e.

Definition obind {A B : Type} (c : outcome A) (k : A -> outcome B) : outcome B :=
  match c with
  | Return a => k a
  | Raise e => Raise e
  end.

(** A statement sequence working on one mutable object of type [S] (the
    ring dictionary): it leaves the object in some state and either
    produces a value or raises.  The state component is what the caller
    still observes of the object after an exception. *)
Definition prog (S A : Type) : Type := S -> S * outcome A.

Definition pret {S A : Type} (a : A) : prog S A := fun s => (s, Return a).

Definition pbind {S A B : Type} (c : prog S A) (k : A -> prog S B) : prog S B :=
  fun s =>
    match c s with
    | (s', Return a) => k a s'
    | (s', Raise e) => (s', Raise e)
    end.

Definition pget {S : Type} : prog S S := fun s => (s, Return s).

Definition pmodify {S : Type} (f : S -> S) : prog S unit :=
  fun s => (f s, Return tt).

Definition plift {S A : Type} (c : outcome A) : prog S A := fun s => (s, c).

(** [for x in v] where [v] may be [None]: iterating [None] raises
    [TypeError] ('NoneType' object is not iterable). *)
Definition py_iter {A : Type} (v : option (list A)) : outcome (list A) :=
  match v with
  | Some l => Return l
  | None => Raise TypeError
  end.

End Py.
Import Py.

Declare Scope outcome_scope.
Delimit Scope outcome_scope with outcome.
Notation "'let!' x ':=' c 'in' k" := (obind c (fun x => k))
  (at level 10, x name, c at level 100, k at level 200) : outcome_scope.

Declare Scope prog_scope.
Delimit Scope prog_scope with prog.
Notation "'do' x '<-' c ';' k" := (pbind c (fun x => k))
  (at level 10, x name, c at level 100, k at level 200) : prog_scope.
Notation "c ';;' k" := (pbind c (fun _ => k))
  (at level 100, k at level 200, right associativity) : prog_scope.

(** ** The ring dictionary *)

(** A device dictionary of the ring builder.  Only ['parts'] is read or
    written by the tool; the other keys (zone, ip, port, device, weight,
    meta, ...) are carried along unchanged. *)
Record dev : Type := mkDev {
  dev_id : Z;
  dev_parts : Z;
  dev_attrs : list (string * string)
}.

Definition set_dev_parts (d : dev) (n : Z) : dev :=
  {| dev_id := dev_id d; dev_parts := n; dev_attrs := dev_attrs d |}.

(** The pickled builder dictionary, restricted to the keys the tool
    touches.  [None] is Python's [None].  A slot of ['devs'] is [None] for
    a removed device. *)
Record ring : Type := mkRing {
  _replica2part2dev : option (list (list Z));
  devs : option (list (option dev));
  _last_part_moves : option (list Z);
  _last_part_moves_epoch : option Z;
  part_power : Z;
  parts : Z;
  devs_changed : bool;
  version : Z
}.

Definition set_replica2part2dev (v : option (list (list Z))) (r : ring) : ring :=
  mkRing v (devs r) (_last_part_moves r) (_last_part_moves_epoch r)
         (part_power r) (parts r) (devs_changed r) (version r).

Definition set_devs (v : option (list (option dev))) (r : ring) : ring :=
  mkRing (_replica2part2dev r) v (_last_part_moves r) (_last_part_moves_epoch r)
         (part_power r) (parts r) (devs_changed r) (version r).

Definition set_last_part_moves (v : option (list Z)) (r : ring) : ring :=
  mkRing (_replica2part2dev r) (devs r) v (_last_part_moves_epoch r)
         (part_power r) (parts r) (devs_changed r) (version r).

Definition set_last_part_moves_epoch (v : option Z) (r : ring) : ring :=
  mkRing (_replica2part2dev r) (devs r) (_last_part_moves r) v
         (part_power r) (parts r) (devs_changed r) (version r).

Definition set_part_power (v : Z) (r : ring) : ring :=
  mkRing (_replica2part2dev r) (devs r) (_last_part_moves r)
         (_last_part_moves_epoch r) v (parts r) (devs_changed r) (version r).

Definition set_parts (v : Z) (r : ring) : ring :=
  mkRing (_replica2part2dev r) (devs r) (_last_part_moves r)
         (_last_part_moves_epoch r) (part_power r) v (devs_changed r) (version r).

Definition set_devs_changed (v : bool) (r : ring) : ring :=
  mkRing (_replica2part2dev r) (devs r) (_last_part_moves r)
         (_last_part_moves_epoch r) (part_power r) (parts r) v (version r).

Definition set_version (v : Z) (r : ring) : ring :=
  mkRing (_replica2part2dev r) (devs r) (_last_part_moves r)
         (_last_part_moves_epoch r) (part_power r) (parts r) (devs_changed r) v.

(** ** [ring_shift_power] *)

(** [array.array('H').append(v)]: an unsigned short array refuses a value
    outside 0..65535 with [OverflowError]. *)
Definition array_H_append (a : list Z) (v : Z) : outcome (list Z) :=
  if (0 <=? v) && (v <=? 65535) then Return (a ++ [v]) else Raise OverflowError.

(** The inner loop: [for device in replica: new_replica.append(device);
    new_replica.append(device)]. *)
Fixpoint shift_replica (replica : list Z) (new_replica : list Z)
  : outcome (list Z) :=
  match replica with
  | [] => Return new_replica
  | device :: rest =>
      (let! a1 := array_H_append new_replica device in
       let! a2 := array_H_append a1 device in
       shift_replica rest a2)%outcome
  end.

(** The outer loop: [for replica in ring['_replica2part2dev']: ...;
    new_replica2part2dev.append(new_replica)]. *)
Fixpoint shift_replicas (replicas : list (list Z))
    (new_replica2part2dev : list (list Z)) : outcome (list (list Z)) :=
  match replicas with
  | [] => Return new_replica2part2dev
  | replica :: rest =>
      (let! new_replica := shift_replica replica [] in
       shift_replicas rest (new_replica2part2dev ++ [new_replica]))%outcome
  end.

(** [for device in ring['devs']: if device: device['parts'] *= 2].  The
    device dictionaries are updated in place; a [None] slot is skipped.
    Every slot holds a dictionary of its own, as in a builder file, where
    [devs[i]['id'] == i]. *)
Fixpoint shift_devs (ds : list (option dev)) : list (option dev) :=
  match ds with
  | [] => []
  | device :: rest =>
      match device with
      | Some d => Some (set_dev_parts d (dev_parts d * 2))
      | None => None
      end :: shift_devs rest
  end.

(** [for partition in ring['_last_part_moves']: new_last_part_moves.append
    (partition); new_last_part_moves.append(partition)] on a plain list. *)
Fixpoint shift_last_part_moves (moves : list Z) (new_last_part_moves : list Z)
  : list Z :=
  match moves with
  | [] => new_last_part_moves
  | partition :: rest =>
      shift_last_part_moves rest
        ((new_last_part_moves ++ [partition]) ++ [partition])
  end.

(** The function mutates the dictionary it is given and returns that same
    dictionary: the state after the call is what the caller's reference
    sees, also when an exception has left the function half way. *)
Definition ring_shift_power : prog ring ring :=
  (do r0 <- pget;
   do replicas <- plift (py_iter (_replica2part2dev r0));
   do new_replica2part2dev <- plift (shift_replicas replicas []);
   pmodify (set_replica2part2dev (Some new_replica2part2dev));;
   do r1 <- pget;
   do ds <- plift (py_iter (devs r1));
   pmodify (set_devs (Some (shift_devs ds)));;
   do r2 <- pget;
   do moves <- plift (py_iter (_last_part_moves r2));
   pmodify (set_last_part_moves (Some (shift_last_part_moves moves [])));;
   do r3 <- pget;
   pmodify (set_part_power (part_power r3 + 1));;
   do r4 <- pget;
   pmodify (set_parts (parts r4 * 2));;
   pget)%prog.

(** What the transform needs of its input to run to the end: every device
    index fits an unsigned short (as in the [array('H')] rows of a builder
    file), and the three containers it iterates are set. *)
Definition fits_H (v : Z) : Prop := 0 <= v <= 65535.

Definition shift_ready (r : ring) : Prop :=
  (exists replicas, _replica2part2dev r = Some replicas /\
                    Forall (Forall fits_H) replicas) /\
  devs r <> None /\
  _last_part_moves r <> None.

(** ** [ring_reset_partitions] *)

(** [for dev in ring['devs']: if dev: dev['parts'] = 0]. *)
Fixpoint reset_devs (ds : list (option dev)) : list (option dev) :=
  match ds with
  | [] => []
  | device :: rest =>
      match device with
      | Some d => Some (set_dev_parts d 0)
      | None => None
      end :: reset_devs rest
  end.

Definition ring_reset_partitions : prog ring ring :=
  (do r0 <- pget;
   do ds <- plift (py_iter (devs r0));
   pmodify (set_devs (Some (reset_devs ds)));;
   pmodify (set_replica2part2dev None);;
   pmodify (set_last_part_moves None);;
   pmodify (set_last_part_moves_epoch None);;
   pmodify (set_devs_changed true);;
   pmodify (set_version 1);;
   pget)%prog.

(** ** Strings and lists as the planner uses them *)

(** [s.split(sep)] for a one-character separator: never empty, one more
    piece than there are separators. *)
Fixpoint split (sep : ascii) (s : string) : list string :=
  match s with
  | EmptyString => [EmptyString]
  | String c s' =>
      if Ascii.eqb c sep then EmptyString :: split sep s'
      else match split sep s' with
           | seg :: rest => String c seg :: rest
           | [] => [String c EmptyString]
           end
  end.

(** [sep.join(l)]. *)
Fixpoint join (sep : string) (l : list string) : string :=
  match l with
  | [] => EmptyString
  | x :: rest =>
      match rest with
      | [] => x
      | _ :: _ => x +:+ sep +:+ join sep rest
      end
  end.

(** [sub in s] on strings: [sub] occurs somewhere in [s]. *)
Fixpoint contains (sub s : string) : bool :=
  String.prefix sub s ||
  match s with
  | EmptyString => false
  | String _ s' => contains sub s'
  end.

(** [x in l] on a list of strings. *)
Definition str_in (x : string) (l : list string) : bool :=
  existsb (String.eqb x) l.

(** [s.startswith('/')] and [s.endswith('/')]. *)
Definition startswith_slash (s : string) : bool :=
  match s with
  | String c _ => Ascii.eqb c "/"
  | EmptyString => false
  end.

Fixpoint endswith_slash (s : string) : bool :=
  match s with
  | EmptyString => false
  | String c EmptyString => Ascii.eqb c "/"
  | String _ s' => endswith_slash s'
  end.

(** [s.strip('/')]: leading and trailing slashes removed. *)
Fixpoint lstrip_slash (s : string) : string :=
  match s with
  | String c s' => if Ascii.eqb c "/" then lstrip_slash s' else s
  | EmptyString => EmptyString
  end.

Fixpoint rstrip_slash (s : string) : string :=
  match s with
  | EmptyString => EmptyString
  | String c s' =>
      match rstrip_slash s' with
      | EmptyString =>
          if Ascii.eqb c "/" then EmptyString else String c EmptyString
      | t => String c t
      end
  end.

Definition strip_slash (s : string) : string := rstrip_slash (lstrip_slash s).

(** [posixpath.join(a, b)]. *)
Definition os_path_join (a b : string) : string :=
  if startswith_slash b then b
  else if String.eqb a EmptyString || endswith_slash a then a +:+ b
  else a +:+ "/" +:+ b.

(** [str(n)] of an integer. *)
Definition str (n : Z) : string := NilZero.string_of_int (Z.to_int n).

(** [l.index(x)]: the first position of [x], [ValueError] when absent. *)
Fixpoint list_index (x : string) (l : list string) : outcome nat :=
  match l with
  | [] => Raise ValueError
  | y :: rest =>
      if String.eqb y x then Return O
      else (let! i := list_index x rest in Return (S i))%outcome
  end.

(** [l[i]] and [l[i] = v] for [i >= 0]: [IndexError] out of range. *)
Definition list_getitem (l : list string) (i : nat) : outcome string :=
  match l !! i with
  | Some x => Return x
  | None => Raise IndexError
  end.

Definition list_setitem (l : list string) (i : nat) (v : string)
  : outcome (list string) :=
  if (i <? length l)%nat then Return (<[i := v]> l) else Raise IndexError.

(** ** The relocation planner *)

(** What the planner prints, one constructor per [print] statement of
    [find_all_files]; [render] is the text that reaches standard output. *)
Inductive line : Type :=
  | Comment (entity : string)
  | Mkdir (newdir : string)
  | Mv (oldname newname : string)
  | Blank.

Definition render (l : line) : string :=
  match l with
  | Comment entity => "#" +:+ entity
  | Mkdir newdir => "mkdir -p " +:+ newdir
  | Mv oldname newname => "mv " +:+ oldname +:+ " " +:+ newname
  | Blank => EmptyString
  end.

(** [print]: the planner's state is the list of lines printed so far. *)
Definition print (l : line) : prog (list line) unit :=
  pmodify (fun out => out ++ [l]).

(** The flags of [optparse]: [options.objects is True] and so on. *)
Record options : Type := mkOptions {
  objects : bool;
  containers : bool;
  accounts : bool
}.

(** A loaded [swift.common.ring.Ring], seen through the partition that
    [get_nodes(account, container, obj)] returns. *)
Definition hashring : Type := string -> option string -> option string -> Z.

(** The collaborators of the planner: the file system with its extended
    attributes, the unpickler, the ring loader and the two database
    brokers. *)
Record world : Type := mkWorld {
  (** [open(filename)] and the extended attributes of the opened file;
      [None] when the file cannot be opened ([IOError]) *)
  fs_open : string -> option (list (string * string));
  (** [pickle.loads(metadata)], a dictionary *)
  pickle_loads : string -> outcome (list (string * string));
  (** [Ring(ringfile)] *)
  Ring : string -> outcome hashring;
  (** [ContainerBroker(db).get_info()]: ['account'] and ['container'] *)
  ContainerBroker_get_info : string -> outcome (string * string);
  (** [AccountBroker(db).get_info()]: ['account'] *)
  AccountBroker_get_info : string -> outcome string;
  (** [os.walk(path)]: the triples [(root, dirs, files)] in walk order *)
  os_walk : string -> list (string * list string * list string)
}.

(** Lookup in a dictionary given as an association list ([d.get(k)],
    [getxattr]). *)
Fixpoint assoc (k : string) (d : list (string * string)) : option string :=
  match d with
  | [] => None
  | (k', v) :: rest => if String.eqb k' k then Some v else assoc k rest
  end.

(** ['%s%s' % ("user.swift.metadata", (key or ''))]. *)
Definition xattr_key (key : nat) : string :=
  "user.swift.metadata" +:+
  match key with
  | O => EmptyString
  | S _ => NilZero.string_of_uint (Nat.to_uint key)
  end.

(** The [while True] loop of [get_acc_cont_obj]: it ends at the first key
    for which [getxattr] raises [IOError].  The recursion is bounded by
    [fuel]; [read_metadata_fuel] shows that one more than the number of
    attributes is always enough. *)
Fixpoint read_metadata (fuel : nat) (attrs : list (string * string))
    (key : nat) (metadata : string) : string :=
  match fuel with
  | O => metadata
  | S fuel' =>
      match assoc (xattr_key key) attrs with
      | Some chunk => read_metadata fuel' attrs (S key) (metadata +:+ chunk)
      | None => metadata
      end
  end.

Section Planner.

Variable W : world.

(** [get_acc_cont_obj(filename)]. *)
Definition get_acc_cont_obj (filename : string)
  : outcome (string * string * string) :=
  match fs_open W filename with
  | None => Raise IOError
  | Some attrs =>
      let metadata := read_metadata (S (length attrs)) attrs 0 EmptyString in
      (let! d := pickle_loads W metadata in
       match assoc "name" d with
       | None => Raise AttributeError
       | Some object_name =>
           let! account := list_getitem (split "/" object_name) 1 in
           let! container := list_getitem (split "/" object_name) 2 in
           let obj := join "/" (drop 3 (split "/" object_name)) in
           Return (account, container, obj)
       end)%outcome
  end.

(** The path surgery each of the three branches performs:
    [oldname_parts = oldname.split('/')],
    [part_pos = oldname_parts.index(kind)],
    [oldname_parts[part_pos+1] = str(new_part)], then [newname] and
    [newdir] joined from the updated list. *)
Definition relocate (kind : string) (oldname : string) (new_part : Z)
  : outcome (string * string) :=
  (let oldname_parts := split "/" oldname in
   let! part_pos := list_index kind oldname_parts in
   let! oldname_parts := list_setitem oldname_parts (part_pos + 1) (str new_part) in
   let newname := join "/" oldname_parts in
   let newdir := join "/" (removelast oldname_parts) in
   Return (newdir, newname))%outcome.

(** [oldname.split('.')[-1] in exts]. *)
Definition ext_in (oldname : string) (exts : list string) : bool :=
  match last (split "." oldname) with
  | Some ext => str_in ext exts
  | None => false
  end.

(** The three [if] statements of the loop body, in source order.  They
    are independent statements, not an [if]/[elif] chain. *)
Definition object_branch (ring : hashring) (opts : options) (oldname : string)
  : prog (list line) unit :=
  if objects opts && ext_in oldname ["data"; "ts"] then
    (do ident <- plift (get_acc_cont_obj oldname);
     let '(acc, cont, obj) := ident in
     let new_part := ring acc (Some cont) (Some obj) in
     do names <- plift (relocate "objects" oldname new_part);
     let '(newdir, newname) := names in
     print (Comment (acc +:+ "/" +:+ cont +:+ "/" +:+ obj));;
     print (Mkdir newdir);;
     print (Mv oldname newname);;
     print Blank)%prog
  else pret tt.

Definition container_branch (ring : hashring) (opts : options) (oldname : string)
  : prog (list line) unit :=
  if containers opts && ext_in oldname ["db"] && contains "containers" oldname then
    (do info <- plift (ContainerBroker_get_info W oldname);
     let '(acc, cont) := info in
     let new_part := ring acc (Some cont) None in
     do names <- plift (relocate "containers" oldname new_part);
     let '(newdir, newname) := names in
     print (Comment (acc +:+ "/" +:+ cont));;
     print (Mkdir newdir);;
     print (Mv oldname newname);;
     print Blank)%prog
  else pret tt.

Definition account_branch (ring : hashring) (opts : options) (oldname : string)
  : prog (list line) unit :=
  if accounts opts && ext_in oldname ["db"] && contains "accounts" oldname then
    (do acc <- plift (AccountBroker_get_info W oldname);
     let new_part := ring acc None None in
     do names <- plift (relocate "accounts" oldname new_part);
     let '(newdir, newname) := names in
     print (Comment acc);;
     print (Mkdir newdir);;
     print (Mv oldname newname);;
     print Blank)%prog
  else pret tt.

(** The body of [for filename in files].  The source also rebinds [path]
    to the first [path_elements + 2] segments of [root]; that value is
    never read. *)
Definition visit_file (ring : hashring) (opts : options) (path_elements : nat)
    (root filename : string) : prog (list line) unit :=
  (let oldname := os_path_join root filename in
   let path := join "/" (take (path_elements + 2) (split "/" root)) in
   object_branch ring opts oldname;;
   container_branch ring opts oldname;;
   account_branch ring opts oldname)%prog.

Fixpoint visit_files (ring : hashring) (opts : options) (path_elements : nat)
    (root : string) (files : list string) : prog (list line) unit :=
  match files with
  | [] => pret tt
  | filename :: rest =>
      (visit_file ring opts path_elements root filename;;
       visit_files ring opts path_elements root rest)%prog
  end.

(** [for root, _dirs, files in os.walk(path): if not "quarantined" in
    root: ...]. *)
Fixpoint visit_dirs (ring : hashring) (opts : options) (path_elements : nat)
    (walk : list (string * list string * list string))
  : prog (list line) unit :=
  match walk with
  | [] => pret tt
  | (root, _dirs, files) :: rest =>
      ((if negb (contains "quarantined" root)
        then visit_files ring opts path_elements root files
        else pret tt);;
       visit_dirs ring opts path_elements rest)%prog
  end.

(** [find_all_files(ringfile, path, options)]. *)
Definition find_all_files (ringfile path : string) (opts : options)
  : prog (list line) unit :=
  (let path_elements := length (split "/" (strip_slash path)) in
   do ring <- plift (Ring W ringfile);
   visit_dirs ring opts path_elements (os_walk W path))%prog.

End Planner.

(** ** Vocabulary for the planner's properties *)

(** The sources of the move instructions in an output, in order. *)
Fixpoint mv_sources (out : list line) : list string :=
  match out with
  | [] => []
  | Mv oldname _ :: rest => oldname :: mv_sources rest
  | _ :: rest => mv_sources rest
  end.

(** The files the walk hands to the loop body: the [oldname] of every
    file of every directory that passes the quarantine test. *)
Fixpoint visited_files (walk : list (string * list string * list string))
  : list string :=
  match walk with
  | [] => []
  | (root, _dirs, files) :: rest =>
      (if negb (contains "quarantined" root)
       then map (os_path_join root) files
       else []) ++ visited_files rest
  end.

(** The container branch and the account branch both take [oldname]. *)
Definition selected_twice (opts : options) (oldname : string) : bool :=
  (containers opts && ext_in oldname ["db"] && contains "containers" oldname) &&
  (accounts opts && ext_in oldname ["db"] && contains "accounts" oldname).

(** The branches that take [oldname], one slot per branch. *)
Definition move_slots (opts : options) (oldname : string) : list string :=
  (if objects opts && ext_in oldname ["data"; "ts"] then [oldname] else []) ++
  (if containers opts && ext_in oldname ["db"] && contains "containers" oldname
   then [oldname] else []) ++
  (if accounts opts && ext_in oldname ["db"] && contains "accounts" oldname
   then [oldname] else []).

(** A planner statement only adds lines at the end of the output, and
    the move instructions among them have their sources, in order, among
    [srcs]. *)
Definition moves_at_most (c : prog (list line) unit) (srcs : list string)
  : Prop :=
  forall out, exists lines res,
    c out = (out ++ lines, res) /\ mv_sources lines `sublist_of` srcs.

(** The walk without the directories that lie below a path segment named
    [quarantined]. *)
Definition below_quarantined (entry : string * list string * list string)
  : bool :=
  let '(root, _, _) := entry in str_in "quarantined" (split "/" root).

Definition unquarantined (walk : list (string * list string * list string))
  : list (string * list string * list string) :=
  filter (fun entry => negb (below_quarantined entry)) walk.

(** ** Sample inputs *)

(** A balanced ring of four partitions, two replicas and three device
    slots, the middle one removed. *)
Definition sample_ring : ring :=
  mkRing (Some [[0; 2; 2; 0]; [2; 0; 0; 2]])
         (Some [Some (mkDev 0 4 [("device", "sda")]); None;
                Some (mkDev 2 4 [("device", "sdc")])])
         (Some [9; 8; 7; 6]) (Some 1380000000) 2 4 false 7.

(** The same ring before its first rebalance: nothing assigned yet. *)
Definition unassigned_ring : ring :=
  mkRing None
         (Some [Some (mkDev 0 0 [("device", "sda")]); None;
                Some (mkDev 2 0 [("device", "sdc")])])
         None None 2 4 true 1.

(** The sample ring without its move bookkeeping, and without its device
    list. *)
Definition no_moves_ring : ring := set_last_part_moves None sample_ring.

Definition no_devs_ring : ring := set_devs None sample_ring.

(** The sample ring with plain-list rows, one of which names a device
    index that no unsigned short can hold. *)
Definition wide_ring : ring :=
  set_replica2part2dev (Some [[0; 2; 2; 0]; [2; 65536; 0; 2]]) sample_ring.

(** A stand-in for the unpickler: the empty string does not unpickle
    ([pickle.loads('')] raises [EOFError]); any other text is read as the
    pickle of the dictionary [{'name': text}]. *)
Definition sample_pickle (s : string) : outcome (list (string * string)) :=
  if String.eqb s EmptyString then Raise EOFError else Return [("name", s)].

Definition no_database (db : string) : pyexn :=
  OtherError "sqlite3.OperationalError".

(** One object file stored under partition 7; the new ring sends its
    name to partition 7 again. *)
Definition settled_world : world :=
  mkWorld
    (fun f =>
       if String.eqb f "/srv/node/sda/objects/7/abc/0f/1380.data"
       then Some [("user.swift.metadata", "/AUTH_a/c/o")] else None)
    sample_pickle
    (fun _ => Return (fun _ _ _ => 7))
    (fun db => Raise (no_database db))
    (fun db => Raise (no_database db))
    (fun _ =>
       [("/srv/node", ["sda"], []);
        ("/srv/node/sda", ["objects"], []);
        ("/srv/node/sda/objects", ["7"], []);
        ("/srv/node/sda/objects/7", ["abc"], []);
        ("/srv/node/sda/objects/7/abc", ["0f"], []);
        ("/srv/node/sda/objects/7/abc/0f", [], ["1380.data"])]).

(** Two object files; the first one carries no metadata attribute, the
    second one is intact and has to move from partition 7 to partition
    12. *)
Definition damaged_world : world :=
  mkWorld
    (fun f =>
       if String.eqb f "/srv/node/sda/objects/3/abc/0a/1379.data"
       then Some []
       else if String.eqb f "/srv/node/sda/objects/7/abc/0f/1380.data"
       then Some [("user.swift.metadata", "/AUTH_a/c/o")] else None)
    sample_pickle
    (fun _ => Return (fun _ _ _ => 12))
    (fun db => Raise (no_database db))
    (fun db => Raise (no_database db))
    (fun _ =>
       [("/srv/node/sda/objects/3/abc/0a", [], ["1379.data"]);
        ("/srv/node/sda/objects/7/abc/0f", [], ["1380.data"])]).

(** The same tree without the damaged file. *)
Definition intact_world : world :=
  mkWorld (fs_open damaged_world) sample_pickle (Ring damaged_world)
    (ContainerBroker_get_info damaged_world)
    (AccountBroker_get_info damaged_world)
    (fun _ => [("/srv/node/sda/objects/7/abc/0f", [], ["1380.data"])]).

(** One database file below a directory named [accounts] and a directory
    named [containers], with both brokers answering for it. *)
Definition two_kinds_world : world :=
  mkWorld
    (fun _ => None)
    sample_pickle
    (fun _ => Return (fun _ _ _ => 9))
    (fun _ => Return ("AUTH_a", "c"))
    (fun _ => Return "AUTH_a")
    (fun _ => [("/srv/accounts/sdb/containers/5/abc/0f", [], ["0f.db"])]).

(** ** The command line: [main] *)

(** What [main] works on: the files that hold pickled builders, by path,
    and the lines printed so far. *)
Record machine : Type := mkMachine {
  files : string -> option string;
  stdout : list string
}.

Definition set_file (name content : string) (m : machine) : machine :=
  mkMachine (fun p => if String.eqb p name then Some content else files m p)
            (stdout m).

Definition set_stdout (out : list string) (m : machine) : machine :=
  mkMachine (files m) out.

(** What [main] is given from outside: the program name [sys.argv[0]],
    [pickle.load] and [pickle.dump] for builder dictionaries, which paths
    can be opened for writing, and the planner's collaborators. *)
Record host : Type := mkHost {
  argv0 : string;
  pickle_load : string -> outcome ring;
  pickle_dump : ring -> string;
  can_write : string -> bool;
  planner_world : world
}.

(** The flags as [optparse] returns them ([store_true] options). *)
Record cli : Type := mkCli {
  reset : bool;
  increase : bool;
  show : bool;
  kinds : options
}.

(** [open(name)]: [IOError] when there is no such file. *)
Definition open_read (name : string) : prog machine unit :=
  fun m =>
    match files m name with
    | Some _ => (m, Return tt)
    | None => (m, Raise IOError)
    end.

(** [open(name, "wb")]: the file is created or cut to length zero. *)
Definition open_write (h : host) (name : string) : prog machine unit :=
  fun m =>
    if can_write h name then (set_file name EmptyString m, Return tt)
    else (m, Raise IOError).

(** Reading an opened file from its start yields what the file holds at
    the time of reading. *)
Definition read_file (name : string) : prog machine string :=
  fun m =>
    match files m name with
    | Some content => (m, Return content)
    | None => (m, Raise IOError)
    end.

Definition write_file (name content : string) : prog machine unit :=
  pmodify (set_file name content).

Definition print_text (text : string) : prog machine unit :=
  pmodify (fun m => set_stdout (stdout m ++ [text]) m).

(** [s * n] on strings. *)
Fixpoint str_mul (s : string) (n : nat) : string :=
  match n with
  | O => EmptyString
  | S n' => s +:+ str_mul s n'
  end.

(** [range(n)]: the numbers below [n], none when [n] is not positive. *)
Definition py_range (n : Z) : list nat := seq 0 (Z.to_nat n).

(** [replica[part]] for [part >= 0]. *)
Definition row_getitem (row : list Z) (part : nat) : outcome Z :=
  match row !! part with
  | Some device => Return device
  | None => Raise IndexError
  end.

(** The inner loop of the [--show] branch: [for replica in
    src_ring['_replica2part2dev']: device = replica[part];
    devices.append(str(device))]. *)
Fixpoint show_devices (replicas : list (list Z)) (part : nat)
    (devices : list string) : outcome (list string) :=
  match replicas with
  | [] => Return devices
  | replica :: rest =>
      (let! device := row_getitem replica part in
       show_devices rest part (devices ++ [str device]))%outcome
  end.

(** ["Partition %d:\t%s" % (part, ' '.join(devices))]. *)
Definition partition_line (part : nat) (devices : list string) : string :=
  "Partition " +:+ str (Z.of_nat part) +:+ ":" +:+ String "009" EmptyString
  +:+ join " " devices.

(** The outer loop: [for part in range(src_ring['parts']): ...]. *)
Fixpoint show_partitions (src_ring : ring) (range : list nat)
  : prog machine unit :=
  match range with
  | [] => pret tt
  | part :: rest =>
      (do replicas <- plift (py_iter (_replica2part2dev src_ring));
       do devices <- plift (show_devices replicas part []);
       print_text (partition_line part devices);;
       show_partitions src_ring rest)%prog
  end.

(** What the [--show] branch prints for a loaded builder. *)
Definition show_ring (src_ring : ring) : prog machine unit :=
  (print_text ("Replica:" +:+ String "009" EmptyString +:+ "0 1 2");;
   print_text (str_mul "-" 25);;
   show_partitions src_ring (py_range (parts src_ring)))%prog.

(** The [--reset] and the [--increase] branch, which differ in the
    transform only: both files are opened, the source first, before the
    source is unpickled; the result is pickled into the destination. *)
Definition transform_file (h : host) (transform : prog ring ring)
    (args : list string) : prog machine unit :=
  (do src <- plift (list_getitem args 0);
   open_read src;;
   do dst <- plift (list_getitem args 1);
   open_write h dst;;
   do content <- read_file src;
   do src_ring <- plift (pickle_load h content);
   do dst_ring <- plift (snd (transform src_ring));
   write_file dst (pickle_dump h dst_ring))%prog.

(** The [--show] branch. *)
Definition show_file (h : host) (args : list string) : prog machine unit :=
  (do src <- plift (list_getitem args 0);
   open_read src;;
   do content <- read_file src;
   do src_ring <- plift (pickle_load h content);
   show_ring src_ring)%prog.

(** The three planner branches: [ringfile = args[0]; path = args[1];
    find_all_files(ringfile, path, options)].  The planner prints after
    what has been printed before. *)
Definition plan (h : host) (c : cli) (args : list string)
  : prog machine unit :=
  (do ringfile <- plift (list_getitem args 0);
   do path <- plift (list_getitem args 1);
   fun m =>
     let '(out, res) :=
       find_all_files (planner_world h) ringfile path (kinds c) [] in
     (set_stdout (stdout m ++ map render out) m, res))%prog.

Definition usage (h : host) : prog machine unit :=
  (print_text ("Usage: " +:+ argv0 h +:+ " [-r|--reset] <inputfile> <outputfile>");;
   print_text ("Usage: " +:+ argv0 h +:+ " [-i|--increase] <inputfile> <outputfile>");;
   print_text ("Usage: " +:+ argv0 h +:+ " [-s|--show] <inputfile>");;
   print_text ("Usage: " +:+ argv0 h +:+ " [-o|--objects] <ringfile> <path>");;
   print_text ("Usage: " +:+ argv0 h +:+ " [-c|--containers] <ringfile> <path>");;
   print_text ("Usage: " +:+ argv0 h +:+ " [-a|--accounts] <ringfile> <path>"))%prog.

(** [main()] after [parser.parse_args()]. *)
Definition main (h : host) (c : cli) (args : list string)
  : prog machine unit :=
  if reset c then transform_file h ring_reset_partitions args
  else if increase c then transform_file h ring_shift_power args
  else if show c then show_file h args
  else if objects (kinds c) then plan h c args
  else if containers (kinds c) then plan h c args
  else if accounts (kinds c) then plan h c args
  else usage h.

(** ** Vocabulary for the builder's invariants *)

(** How often device index [d] occurs in a row, and in all rows: the
    number of (replica, partition) pairs assigned to [d]. *)
Fixpoint count_dev (d : Z) (row : list Z) : nat :=
  match row with
  | [] => O
  | x :: rest => ((if Z.eqb x d then 1 else 0) + count_dev d rest)%nat
  end.

Fixpoint assignments (d : Z) (replicas : list (list Z)) : nat :=
  match replicas with
  | [] => O
  | row :: rest => (count_dev d row + assignments d rest)%nat
  end.

(** The invariants a balanced builder file satisfies: every device's
    ['parts'] is the number of assignments to its slot, every row has one
    entry per partition, and the partition count is two to the partition
    power. *)
Definition parts_counted (r : ring) : Prop :=
  forall replicas ds (i : nat) (d : dev),
    _replica2part2dev r = Some replicas ->
    devs r = Some ds ->
    ds !! i = Some (Some d) ->
    dev_parts d = Z.of_nat (assignments (Z.of_nat i) replicas).

Definition rows_complete (r : ring) : Prop :=
  forall replicas row,
    _replica2part2dev r = Some replicas ->
    In row replicas ->
    Z.of_nat (length row) = parts r.

Definition power_of_two (r : ring) : Prop :=
  0 <= part_power r /\ parts r = 2 ^ part_power r.

(** ** Vocabulary for names and paths *)

(** Whether, and how often, a character occurs in a string. *)
Fixpoint has_char (c : ascii) (s : string) : bool :=
  match s with
  | EmptyString => false
  | String x s' => Ascii.eqb x c || has_char c s'
  end.

Fixpoint count_char (c : ascii) (s : string) : nat :=
  match s with
  | EmptyString => O
  | String x s' => ((if Ascii.eqb x c then 1 else 0) + count_char c s')%nat
  end.

(** ** Vocabulary for the shape of the plan *)

(** One relocation record, its four lines, and where it comes from: the
    directory and the destination are what [relocate] computes from the
    source for some kind directory and partition. *)
Definition record : Type := (string * string * string * string)%type.

Definition record_lines (b : record) : list line :=
  let '(entity, newdir, oldname, newname) := b in
  [Comment entity; Mkdir newdir; Mv oldname newname; Blank].

Definition record_source (b : record) : string :=
  let '(_, _, oldname, _) := b in oldname.

Definition relocated (b : record) : Prop :=
  let '(_, newdir, oldname, newname) := b in
  exists kind new_part,
    relocate kind oldname new_part = Return (newdir, newname).

(** A planner statement prints whole records only, also when it raises,
    and when it returns their sources are exactly [srcs]. *)
Definition prints_records (c : prog (list line) unit) (srcs : list string)
  : Prop :=
  forall out, exists bs res,
    c out = (out ++ flat_map record_lines bs, res) /\
    Forall relocated bs /\
    (res = Return tt -> map record_source bs = srcs).

(** ** Further sample inputs *)

(** A world in which every file opens and carries [name] as its only
    metadata chunk. *)
Definition named_world (name : string) : world :=
  mkWorld (fun _ => Some [("user.swift.metadata", name)])
    sample_pickle (Ring settled_world)
    (ContainerBroker_get_info settled_world)
    (AccountBroker_get_info settled_world) (os_walk settled_world).

(** The settled world with database brokers that answer. *)
Definition other_brokers_world : world :=
  mkWorld (fs_open settled_world) (pickle_loads settled_world)
    (Ring settled_world)
    (fun _ => Return ("AUTH_b", "d"))
    (fun _ => Return "AUTH_b")
    (os_walk settled_world).

(** One object file below a directory whose name merely contains the
    word [quarantined]. *)
Definition kept_aside_world : world :=
  mkWorld
    (fun _ => Some [("user.swift.metadata", "/AUTH_a/c/o")])
    sample_pickle
    (fun _ => Return (fun _ _ _ => 12))
    (fun db => Raise (no_database db))
    (fun db => Raise (no_database db))
    (fun _ =>
       [("/srv/node/sda/notquarantined/objects/7/abc/0f", [], ["1380.data"]);
        ("/srv/node/sdb/objects/7/abc/0f", [], ["1381.data"])]).

(** A stand-in for [pickle]: three builder files are known by their
    content, the empty file does not unpickle ([EOFError]), and anything
    else is refused. *)
Definition sample_load (content : string) : outcome ring :=
  if String.eqb content EmptyString then Raise EOFError
  else if String.eqb content "builder:4" then Return sample_ring
  else if String.eqb content "builder:8"
       then Return (fst (ring_shift_power sample_ring))
  else if String.eqb content "builder:4:unassigned"
       then Return (fst (ring_reset_partitions sample_ring))
  else Raise (OtherError "UnpicklingError").

Definition sample_dump (r : ring) : string :=
  "builder:" +:+ str (parts r) +:+
  match _replica2part2dev r with
  | Some _ => EmptyString
  | None => ":unassigned"
  end.

Definition sample_host : host :=
  mkHost "swift-ring-tool" sample_load sample_dump
         (fun name => negb (String.eqb name "/readonly/out.builder"))
         intact_world.

(** A machine with one builder file. *)
Definition sample_machine : machine :=
  mkMachine
    (fun name =>
       if String.eqb name "object.builder" then Some "builder:4" else None)
    [].

(** * Properties of the ring transforms *)

Section Doubling.

Context {A : Type}.

(** Each element followed by itself. *)
Lemma twice_length (l : list A) :
  length (flat_map (fun x => [x; x]) l) = (2 * length l)%nat.
Proof. induction l as [|x l IH]; simpl; [reflexivity | lia]. Qed.

Lemma twice_lookup (l : list A) (p : nat) :
  flat_map (fun x => [x; x]) l !! (2 * p)%nat = l !! p /\
  flat_map (fun x => [x; x]) l !! (2 * p + 1)%nat = l !! p.
Proof.
  revert p. induction l as [|x l IH]; intros p.
  - split; reflexivity.
  - destruct p as [|p].
    + split; reflexivity.
    + replace (2 * S p)%nat with (S (S (2 * p))) by lia.
      replace (S (S (2 * p)) + 1)%nat with (S (S (2 * p + 1))) by lia.
      simpl flat_map. simpl. apply IH.
Qed.

End Doubling.

Lemma array_H_append_fits (a : list Z) (v : Z) :
  fits_H v -> array_H_append a v = Return (a ++ [v]).
Proof.
  unfold fits_H, array_H_append. intros [H0 H1].
  destruct (Z.leb_spec 0 v); [|lia].
  destruct (Z.leb_spec v 65535); [|lia]. reflexivity.
Qed.

Lemma array_H_append_raise (a : list Z) (v : Z) (e : pyexn) :
  array_H_append a v = Raise e -> e = OverflowError.
Proof.
  unfold array_H_append. destruct (_ && _); congruence.
Qed.

Lemma shift_replica_fits (replica new_replica : list Z) :
  Forall fits_H replica ->
  shift_replica replica new_replica =
    Return (new_replica ++ flat_map (fun d => [d; d]) replica).
Proof.
  intros H. revert new_replica.
  induction H as [|d rest Hd _ IH]; intros acc; simpl.
  - by rewrite app_nil_r.
  - rewrite (array_H_append_fits _ _ Hd). simpl.
    rewrite (array_H_append_fits _ _ Hd). simpl.
    rewrite IH. by rewrite <- !app_assoc.
Qed.

Lemma shift_replica_raise (replica new_replica : list Z) (e : pyexn) :
  shift_replica replica new_replica = Raise e -> e = OverflowError.
Proof.
  revert new_replica. induction replica as [|d rest IH]; intros acc; simpl.
  - discriminate.
  - destruct (array_H_append acc d) as [a1|e1] eqn:E1; simpl.
    + destruct (array_H_append a1 d) as [a2|e2] eqn:E2; simpl.
      * apply IH.
      * intros [= <-]. eapply array_H_append_raise, E2.
    + intros [= <-]. eapply array_H_append_raise, E1.
Qed.

Lemma shift_replicas_fits (replicas acc : list (list Z)) :
  Forall (Forall fits_H) replicas ->
  shift_replicas replicas acc =
    Return (acc ++ map (flat_map (fun d => [d; d])) replicas).
Proof.
  intros H. revert acc.
  induction H as [|row rest Hrow _ IH]; intros acc; simpl.
  - by rewrite app_nil_r.
  - rewrite (shift_replica_fits _ _ Hrow). simpl.
    rewrite IH. by rewrite <- app_assoc.
Qed.

Lemma shift_replicas_raise (replicas acc : list (list Z)) (e : pyexn) :
  shift_replicas replicas acc = Raise e -> e = OverflowError.
Proof.
  revert acc. induction replicas as [|row rest IH]; intros acc; simpl.
  - discriminate.
  - destruct (shift_replica row []) as [new|e1] eqn:E1; simpl.
    + apply IH.
    + intros [= <-]. eapply shift_replica_raise, E1.
Qed.

Lemma shift_last_part_moves_eq (moves acc : list Z) :
  shift_last_part_moves moves acc = acc ++ flat_map (fun t => [t; t]) moves.
Proof.
  revert acc. induction moves as [|t rest IH]; intros acc; simpl.
  - by rewrite app_nil_r.
  - rewrite IH. by rewrite <- !app_assoc.
Qed.

Lemma shift_devs_lookup (ds : list (option dev)) (i : nat) :
  shift_devs ds !! i =
    match ds !! i with
    | Some (Some d) => Some (Some (set_dev_parts d (dev_parts d * 2)))
    | Some None => Some None
    | None => None
    end.
Proof.
  revert i. induction ds as [|o ds IH]; intros [|i]; simpl; try reflexivity.
  - by destruct o.
  - apply IH.
Qed.

Lemma reset_devs_lookup (ds : list (option dev)) (i : nat) :
  reset_devs ds !! i =
    match ds !! i with
    | Some (Some d) => Some (Some (set_dev_parts d 0))
    | Some None => Some None
    | None => None
    end.
Proof.
  revert i. induction ds as [|o ds IH]; intros [|i]; simpl; try reflexivity.
  - by destruct o.
  - apply IH.
Qed.

Lemma shift_devs_length (ds : list (option dev)) :
  length (shift_devs ds) = length ds.
Proof. induction ds; simpl; congruence. Qed.

Lemma reset_devs_length (ds : list (option dev)) :
  length (reset_devs ds) = length ds.
Proof. induction ds; simpl; congruence. Qed.

(** The four ways through [ring_shift_power], with the state of the
    dictionary each of them leaves behind. *)
Lemma ring_shift_power_run (r : ring) :
  ring_shift_power r =
    match _replica2part2dev r with
    | None => (r, Raise TypeError)
    | Some replicas =>
        match shift_replicas replicas [] with
        | Raise e => (r, Raise e)
        | Return new =>
            let r1 := set_replica2part2dev (Some new) r in
            match devs r with
            | None => (r1, Raise TypeError)
            | Some ds =>
                let r2 := set_devs (Some (shift_devs ds)) r1 in
                match _last_part_moves r with
                | None => (r2, Raise TypeError)
                | Some moves =>
                    let r5 :=
                      set_parts (parts r * 2)
                        (set_part_power (part_power r + 1)
                           (set_last_part_moves
                              (Some (shift_last_part_moves moves [])) r2)) in
                    (r5, Return r5)
                end
            end
        end
    end.
Proof.
  destruct r as [rep ds lpm ep pp n ch ver].
  unfold ring_shift_power, pbind, pget, plift, pmodify; simpl.
  destruct rep as [replicas|]; simpl; [|reflexivity].
  destruct (shift_replicas replicas []) as [new|e]; simpl; [|reflexivity].
  destruct ds as [ds|]; simpl; [|reflexivity].
  destruct lpm as [moves|]; reflexivity.
Qed.

Lemma ring_shift_power_ready (r : ring) :
  shift_ready r ->
  exists replicas ds moves,
    _replica2part2dev r = Some replicas /\ devs r = Some ds /\
    _last_part_moves r = Some moves /\
    let r' :=
      set_parts (parts r * 2)
        (set_part_power (part_power r + 1)
           (set_last_part_moves (Some (flat_map (fun t => [t; t]) moves))
              (set_devs (Some (shift_devs ds))
                 (set_replica2part2dev
                    (Some (map (flat_map (fun d => [d; d])) replicas)) r)))) in
    ring_shift_power r = (r', Return r').
Proof.
  intros [(replicas & Hrep & Hfit) [Hds Hlpm]].
  destruct (devs r) as [ds|] eqn:Eds; [|congruence].
  destruct (_last_part_moves r) as [moves|] eqn:Elpm; [|congruence].
  exists replicas, ds, moves. repeat split; try reflexivity; try assumption.
  rewrite ring_shift_power_run, Hrep, (shift_replicas_fits _ _ Hfit), Eds, Elpm.
  simpl. rewrite shift_last_part_moves_eq. reflexivity.
Qed.

(** The two ways through [ring_reset_partitions]. *)
Lemma ring_reset_partitions_run (r : ring) :
  ring_reset_partitions r =
    match devs r with
    | None => (r, Raise TypeError)
    | Some ds =>
        let r' :=
          mkRing None (Some (reset_devs ds)) None None
                 (part_power r) (parts r) true 1 in
        (r', Return r')
    end.
Proof.
  destruct r as [rep ds lpm ep pp n ch ver].
  unfold ring_reset_partitions, pbind, pget, plift, pmodify; simpl.
  destruct ds as [ds|]; reflexivity.
Qed.

(** Readiness of a concrete ring, by evaluation. *)
Ltac ready_by_evaluation :=
  split; [|split; discriminate];
  eexists; split; [reflexivity|];
  repeat constructor; unfold fits_H; lia.

(** ** The claims about the transforms *)

(** C1 (amended): for every table whose replica assignment, device list
    and last-moved list are all set, with device indices that fit the
    unsigned 16-bit rows, [ring_shift_power] returns a table with twice
    the partition count and the partition power plus one; every replica
    row has the old device of partition [p] at [2p] and at [2p+1], and the
    last-moved list is doubled the same way. *)
Theorem ring_shift_power_doubles (r : ring) :
  shift_ready r ->
  exists r' replicas replicas' moves moves',
    ring_shift_power r = (r', Return r') /\
    parts r' = 2 * parts r /\
    part_power r' = part_power r + 1 /\
    _replica2part2dev r = Some replicas /\
    _replica2part2dev r' = Some replicas' /\
    length replicas' = length replicas /\
    (forall (k : nat) (row : list Z),
        replicas !! k = Some row ->
        exists row',
          replicas' !! k = Some row' /\
          length row' = (2 * length row)%nat /\
          forall (p : nat) (d : Z),
            row !! p = Some d ->
            row' !! (2 * p)%nat = Some d /\ row' !! (2 * p + 1)%nat = Some d) /\
    _last_part_moves r = Some moves /\
    _last_part_moves r' = Some moves' /\
    length moves' = (2 * length moves)%nat /\
    (forall (p : nat) (t : Z),
        moves !! p = Some t ->
        moves' !! (2 * p)%nat = Some t /\ moves' !! (2 * p + 1)%nat = Some t).
Proof.
  intros Hready.
  destruct (ring_shift_power_ready r Hready)
    as (replicas & ds & moves & Hrep & Hds & Hlpm & Hrun).
  eexists _, replicas, _, moves, _.
  split; [exact Hrun|].
  split; [simpl; lia|]. split; [reflexivity|]. split; [exact Hrep|].
  split; [reflexivity|]. split; [apply length_map|].
  split; [|split; [exact Hlpm|split; [reflexivity|split]]].
  - intros k row Hk. exists (flat_map (fun d => [d; d]) row).
    split; [by rewrite list_lookup_fmap, Hk|].
    split; [apply twice_length|].
    intros p d Hp. destruct (twice_lookup row p) as [-> ->]. by split.
  - apply twice_length.
  - intros p t Hp. destruct (twice_lookup moves p) as [-> ->]. by split.
Qed.

Lemma ring_shift_power_doubles_witness :
  exists r', ring_shift_power sample_ring = (r', Return r') /\ parts r' = 8.
Proof.
  destruct (ring_shift_power_doubles sample_ring)
    as (r' & ? & ? & ? & ? & Hrun & Hparts & _).
  - ready_by_evaluation.
  - exists r'. split; [exact Hrun | exact Hparts].
Defined.

(** C1 as stated fails: with the replica assignment set but the last-moved
    list or the device list unset, or with a device index that does not
    fit an unsigned short, no table is returned. *)
Lemma ring_shift_power_needs_moves_and_devs :
  (_replica2part2dev no_moves_ring = Some [[0; 2; 2; 0]; [2; 0; 0; 2]] /\
   parts no_moves_ring = 4 /\
   snd (ring_shift_power no_moves_ring) = Raise TypeError) /\
  (_replica2part2dev no_devs_ring = Some [[0; 2; 2; 0]; [2; 0; 0; 2]] /\
   parts no_devs_ring = 4 /\
   snd (ring_shift_power no_devs_ring) = Raise TypeError) /\
  (_replica2part2dev wide_ring = Some [[0; 2; 2; 0]; [2; 65536; 0; 2]] /\
   parts wide_ring = 4 /\
   snd (ring_shift_power wide_ring) = Raise OverflowError).
Proof. repeat split. Qed.

(** C3: for every table whose device list is set, [ring_reset_partitions]
    returns a table in which every present device owns 0 partitions, the
    replica assignment, the last-moved list and its epoch are unset,
    [devs_changed] is true and the version is 1. *)
Theorem ring_reset_partitions_clears (r : ring) (ds : list (option dev)) :
  devs r = Some ds ->
  exists r' ds',
    ring_reset_partitions r = (r', Return r') /\
    devs r' = Some ds' /\
    length ds' = length ds /\
    (forall (i : nat) (d : dev),
        ds !! i = Some (Some d) -> ds' !! i = Some (Some (set_dev_parts d 0))) /\
    (forall (i : nat) (d' : dev),
        ds' !! i = Some (Some d') -> dev_parts d' = 0) /\
    _replica2part2dev r' = None /\
    _last_part_moves r' = None /\
    _last_part_moves_epoch r' = None /\
    devs_changed r' = true /\
    version r' = 1.
Proof.
  intros Hds. rewrite ring_reset_partitions_run, Hds. simpl.
  eexists _, _. split; [reflexivity|]. simpl.
  split; [reflexivity|]. split; [apply reset_devs_length|].
  split; [|split; [|by repeat split]].
  - intros i d Hi. by rewrite reset_devs_lookup, Hi.
  - intros i d'. rewrite reset_devs_lookup.
    destruct (ds !! i) as [[d|]|]; intros [= <-]; reflexivity.
Qed.

Lemma ring_reset_partitions_clears_witness :
  exists r', ring_reset_partitions sample_ring = (r', Return r') /\ version r' = 1.
Proof.
  destruct (ring_reset_partitions_clears sample_ring _ eq_refl)
    as (r' & ds' & Hrun & _ & _ & _ & _ & _ & _ & _ & _ & Hver).
  exists r'. split; [exact Hrun | exact Hver].
Defined.

(** C4 (amended): whenever the replica assignment is unset,
    [ring_shift_power] fails with Python's [TypeError], raised by the
    first loop before anything is written to the table. *)
Theorem ring_shift_power_unset_raises (r : ring) :
  _replica2part2dev r = None ->
  ring_shift_power r = (r, Raise TypeError).
Proof. intros H. by rewrite ring_shift_power_run, H. Qed.

Lemma ring_shift_power_unset_raises_witness :
  ring_shift_power unassigned_ring = (unassigned_ring, Raise TypeError).
Proof. apply (ring_shift_power_unset_raises unassigned_ring). reflexivity. Defined.

(** C4 as stated fails: the error raised on an unassigned table is not an
    [InvalidState]. *)
Lemma ring_shift_power_unset_not_InvalidState :
  _replica2part2dev unassigned_ring = None /\
  exists e, snd (ring_shift_power unassigned_ring) = Raise e /\
            exn_name e <> "InvalidState".
Proof. split; [reflexivity|]. exists TypeError. split; [reflexivity|discriminate]. Qed.




(** C6: on every table the transform accepts it returns, and in the table
    it returns every present device owns exactly twice the partitions it
    owned before. *)
Theorem ring_shift_power_doubles_parts (r : ring) :
  (shift_ready r -> exists r', ring_shift_power r = (r', Return r')) /\
  (forall (r' : ring) (ds : list (option dev)),
      ring_shift_power r = (r', Return r') ->
      devs r = Some ds ->
      exists ds',
        devs r' = Some ds' /\
        length ds' = length ds /\
        forall (i : nat) (d : dev),
          ds !! i = Some (Some d) ->
          exists d',
            ds' !! i = Some (Some d') /\
            dev_parts d' = 2 * dev_parts d /\
            dev_id d' = dev_id d /\ dev_attrs d' = dev_attrs d).
Proof.
  split.
  - intros Hready.
    destruct (ring_shift_power_ready r Hready) as (? & ? & ? & _ & _ & _ & Hrun).
    eexists; exact Hrun.
  - intros r' ds Hrun Hds. rewrite ring_shift_power_run, Hds in Hrun.
    destruct (_replica2part2dev r) as [replicas|]; [|discriminate].
    destruct (shift_replicas replicas []) as [new|e]; [|discriminate].
    destruct (_last_part_moves r) as [moves|]; [|discriminate].
    simpl in Hrun. injection Hrun as <-.
    exists (shift_devs ds). split; [reflexivity|].
    split; [apply shift_devs_length|].
    intros i d Hi. exists (set_dev_parts d (dev_parts d * 2)).
    rewrite shift_devs_lookup, Hi. simpl. repeat split. lia.
Qed.

Lemma ring_shift_power_doubles_parts_witness :
  exists r' ds' d',
    ring_shift_power sample_ring = (r', Return r') /\
    devs r' = Some ds' /\ ds' !! 0%nat = Some (Some d') /\ dev_parts d' = 8.
Proof.
  destruct (ring_shift_power_doubles_parts sample_ring) as [Hreturns Hparts].
  destruct Hreturns as [r' Hrun]; [ready_by_evaluation|].
  destruct (Hparts r' _ Hrun eq_refl) as (ds' & Hds' & _ & Hall).
  destruct (Hall 0%nat _ eq_refl) as (d' & Hd' & Hdouble & _).
  exists r', ds', d'. repeat split; assumption.
Defined.

(** C10 (amended): on every table whose device list has empty slots
    [ring_reset_partitions] completes without error, and so does
    [ring_shift_power] when its replica assignment and last-moved list are
    set; in both results the empty slots are exactly the empty slots of
    the input. *)
Theorem transforms_keep_empty_slots (r : ring) (ds : list (option dev)) :
  devs r = Some ds ->
  (exists r' ds',
      ring_reset_partitions r = (r', Return r') /\
      devs r' = Some ds' /\
      forall i : nat, ds' !! i = Some None <-> ds !! i = Some None) /\
  (shift_ready r ->
   exists r' ds',
      ring_shift_power r = (r', Return r') /\
      devs r' = Some ds' /\
      forall i : nat, ds' !! i = Some None <-> ds !! i = Some None).
Proof.
  intros Hds. split.
  - rewrite ring_reset_partitions_run, Hds. simpl.
    eexists _, _. split; [reflexivity|]. split; [reflexivity|].
    intros i. rewrite reset_devs_lookup.
    destruct (ds !! i) as [[d|]|]; split; congruence.
  - intros Hready.
    destruct (ring_shift_power_ready r Hready)
      as (replicas & ds0 & moves & _ & Hds0 & _ & Hrun).
    rewrite Hds in Hds0. injection Hds0 as <-.
    eexists _, _. split; [exact Hrun|]. split; [reflexivity|].
    intros i. rewrite shift_devs_lookup.
    destruct (ds !! i) as [[d|]|]; split; congruence.
Qed.

Lemma transforms_keep_empty_slots_witness :
  exists r' ds',
    ring_shift_power sample_ring = (r', Return r') /\
    devs r' = Some ds' /\ ds' !! 1%nat = Some None.
Proof.
  destruct (transforms_keep_empty_slots sample_ring _ eq_refl) as [_ Hshift].
  destruct Hshift as (r' & ds' & Hrun & Hds' & Hslots).
  - ready_by_evaluation.
  - exists r', ds'. split; [exact Hrun|]. split; [exact Hds'|].
    apply Hslots. reflexivity.
Defined.

(** C10 as stated fails: a table with an empty device slot makes
    [ring_shift_power] raise when its replica assignment is unset, when
    its last-moved list is unset, and when a row holds an index that does
    not fit an unsigned short. *)
Lemma ring_shift_power_empty_slot_unassigned :
  ((exists ds, devs unassigned_ring = Some ds /\ ds !! 1%nat = Some None) /\
   snd (ring_shift_power unassigned_ring) = Raise TypeError) /\
  ((exists ds, devs no_moves_ring = Some ds /\ ds !! 1%nat = Some None) /\
   snd (ring_shift_power no_moves_ring) = Raise TypeError) /\
  ((exists ds, devs wide_ring = Some ds /\ ds !! 1%nat = Some None) /\
   snd (ring_shift_power wide_ring) = Raise OverflowError).
Proof.
  repeat split; try (eexists; split; reflexivity).
Qed.

(** * Properties of the planner *)

(** ** Splitting, joining and searching strings *)

Lemma split_nonempty (sep : ascii) (s : string) : split sep s <> [].
Proof.
  destruct s as [|c s]; simpl; [discriminate|].
  destruct (Ascii.eqb c sep); [discriminate|].
  destruct (split sep s); discriminate.
Qed.

Lemma join_cons (sep x y : string) (rest : list string) :
  join sep (x :: y :: rest) = x +:+ sep +:+ join sep (y :: rest).
Proof. reflexivity. Qed.

(** Joining the pieces of a split with the separator gives the string
    back. *)
Lemma join_split (sep : ascii) (s : string) :
  join (String sep EmptyString) (split sep s) = s.
Proof.
  induction s as [|c s IH]; [reflexivity|].
  simpl split. destruct (Ascii.eqb_spec c sep) as [->|Hne].
  - pose proof (split_nonempty sep s) as Hn.
    destruct (split sep s) as [|seg rest]; [congruence|].
    rewrite join_cons, IH. reflexivity.
  - pose proof (split_nonempty sep s) as Hn.
    destruct (split sep s) as [|seg rest]; [congruence|].
    rewrite <- IH. destruct rest; reflexivity.
Qed.

Lemma append_String (c : ascii) (a b : string) :
  String c a +:+ b = String c (a +:+ b).
Proof. reflexivity. Qed.

Lemma append_assoc (a b c : string) : (a +:+ b) +:+ c = a +:+ (b +:+ c).
Proof.
  induction a as [|x a IH]; [reflexivity|].
  rewrite !append_String. f_equal. exact IH.
Qed.

Lemma prefix_append (sub rest : string) : String.prefix sub (sub +:+ rest) = true.
Proof.
  induction sub as [|c sub IH].
  - by destruct rest.
  - rewrite append_String. simpl.
    destruct (ascii_dec c c); [exact IH | congruence].
Qed.

Lemma contains_prefix (sub s : string) :
  String.prefix sub s = true -> contains sub s = true.
Proof. intros H. destruct s; cbn [contains]; rewrite H; reflexivity. Qed.

Lemma contains_append (a sub b : string) : contains sub (a +:+ sub +:+ b) = true.
Proof.
  induction a as [|c a IH].
  - change (EmptyString +:+ sub +:+ b) with (sub +:+ b).
    apply contains_prefix, prefix_append.
  - rewrite append_String. cbn [contains]. rewrite IH. apply orb_true_r.
Qed.

(** The first piece of a split starts the string. *)
Lemma split_head (sep : ascii) (s seg : string) (rest : list string) :
  split sep s = seg :: rest -> exists b, s = seg +:+ b.
Proof.
  revert seg rest. induction s as [|c s IH]; intros seg rest; simpl.
  - intros [= <- _]. by exists EmptyString.
  - destruct (Ascii.eqb c sep).
    + intros [= <- _]. by exists (String c s).
    + destruct (split sep s) as [|seg0 rest0] eqn:E.
      * intros [= <- _]. exfalso. eapply split_nonempty, E.
      * intros [= <- _]. destruct (IH _ _ eq_refl) as [b Hb].
        exists b. rewrite append_String. by f_equal.
Qed.

(** Every piece of a split occurs in the string. *)
Lemma split_segment (sep : ascii) (s seg : string) :
  In seg (split sep s) -> exists a b, s = a +:+ seg +:+ b.
Proof.
  revert seg. induction s as [|c s IH]; intros seg; simpl.
  - intros [<-|[]]. by exists EmptyString, EmptyString.
  - destruct (Ascii.eqb c sep).
    + intros [<-|Hin].
      * by exists EmptyString, (String c s).
      * destruct (IH _ Hin) as (a & b & ->). by exists (String c a), b.
    + destruct (split sep s) as [|seg0 rest] eqn:E.
      * exfalso. eapply split_nonempty, E.
      * intros [<-|Hin].
        -- destruct (split_head _ _ _ _ E) as [b ->]. by exists EmptyString, b.
        -- destruct (IH _ (or_intror Hin)) as (a & b & ->).
           by exists (String c a), b.
Qed.

(** A directory named [seg] anywhere in a path makes [seg in path] true. *)
Lemma segment_contains (seg path : string) :
  In seg (split "/" path) -> contains seg path = true.
Proof.
  intros Hin. destruct (split_segment _ _ _ Hin) as (a & b & ->).
  apply contains_append.
Qed.

(** ** The metadata loop *)

Lemma to_uint_not_Nil (n : nat) : Nat.to_uint n <> Decimal.Nil.
Proof.
  rewrite <- (Unsigned.of_to n) at 1. rewrite Unsigned.to_of.
  unfold Decimal.unorm. destruct (Decimal.nzhead _); discriminate.
Qed.

Lemma str_uint_inj (a b : nat) :
  NilZero.string_of_uint (Nat.to_uint a) = NilZero.string_of_uint (Nat.to_uint b) ->
  a = b.
Proof.
  intros H. apply Unsigned.to_uint_inj.
  pose proof (NilZero.usu _ (to_uint_not_Nil a)) as Ha.
  pose proof (NilZero.usu _ (to_uint_not_Nil b)) as Hb.
  rewrite H in Ha. congruence.
Qed.

Lemma str_uint_nonempty (a : nat) :
  NilZero.string_of_uint (Nat.to_uint a) <> EmptyString.
Proof.
  pose proof (to_uint_not_Nil a) as Hn.
  destruct (Nat.to_uint a); simpl; congruence.
Qed.

Lemma append_inj_l (a x y : string) : a +:+ x = a +:+ y -> x = y.
Proof.
  induction a as [|c a IH]; [trivial|].
  rewrite !append_String. intros [= H]. by apply IH.
Qed.

Lemma xattr_key_inj (a b : nat) : xattr_key a = xattr_key b -> a = b.
Proof.
  unfold xattr_key. intros H%append_inj_l.
  destruct a as [|a], b as [|b]; [reflexivity| | |].
  - symmetry in H. by apply str_uint_nonempty in H.
  - by apply str_uint_nonempty in H.
  - by apply str_uint_inj.
Qed.

Lemma assoc_In (k v : string) (d : list (string * string)) :
  assoc k d = Some v -> In k (map fst d).
Proof.
  induction d as [|[k' v'] d IH]; simpl; [discriminate|].
  destruct (String.eqb_spec k' k) as [->|Hne]; [by left|].
  intros H. right. by apply IH.
Qed.

(** Once a key is missing the loop has ended, however much fuel is left. *)
Lemma read_metadata_stops (attrs : list (string * string)) (j : nat) :
  forall (fuel fuel' key : nat) (metadata : string),
    assoc (xattr_key (key + j)) attrs = None ->
    (j < fuel)%nat -> (j < fuel')%nat ->
    read_metadata fuel attrs key metadata = read_metadata fuel' attrs key metadata.
Proof.
  induction j as [|j IH]; intros fuel fuel' key metadata Hnone Hf Hf'.
  - destruct fuel as [|fuel]; [lia|]. destruct fuel' as [|fuel']; [lia|].
    simpl. rewrite Nat.add_0_r in Hnone. by rewrite Hnone.
  - destruct fuel as [|fuel]; [lia|]. destruct fuel' as [|fuel']; [lia|].
    simpl. destruct (assoc (xattr_key key) attrs); [|reflexivity].
    apply IH; [|lia|lia]. by replace (S key + j)%nat with (key + S j)%nat by lia.
Qed.

(** Among [length attrs + 1] consecutive keys one is missing. *)
Lemma xattr_key_missing (attrs : list (string * string)) (key : nat) :
  exists j, (j <= length attrs)%nat /\ assoc (xattr_key (key + j)) attrs = None.
Proof.
  assert (forall n, (exists j, (j < n)%nat /\ assoc (xattr_key (key + j)) attrs = None) \/
                    (forall j, (j < n)%nat -> assoc (xattr_key (key + j)) attrs <> None))
    as Hsearch.
  { induction n as [|n [(j & Hj & Hnone)|Hall]].
    - right. intros j Hj. lia.
    - left. exists j. split; [lia|exact Hnone].
    - destruct (assoc (xattr_key (key + n)) attrs) eqn:E.
      + right. intros j Hj. destruct (Nat.eq_dec j n) as [->|Hne].
        * congruence.
        * apply Hall. lia.
      + left. exists n. split; [lia|exact E]. }
  destruct (Hsearch (S (length attrs))) as [(j & Hj & Hnone)|Hall].
  - exists j. split; [lia|exact Hnone].
  - exfalso.
    set (keys := map (fun j => xattr_key (key + j)) (seq 0 (S (length attrs)))).
    assert (List.NoDup keys) as Hnd.
    { apply Finite.Injective_map_NoDup; [|apply List.seq_NoDup].
      intros a b Hab. apply xattr_key_inj in Hab. lia. }
    assert (incl keys (map fst attrs)) as Hincl.
    { intros k Hk. apply in_map_iff in Hk as (j & <- & Hj). apply in_seq in Hj.
      destruct (assoc (xattr_key (key + j)) attrs) eqn:E.
      - eapply assoc_In, E.
      - exfalso. apply (Hall j); [lia|exact E]. }
    pose proof (List.NoDup_incl_length Hnd Hincl) as Hlen.
    unfold keys in Hlen. rewrite !length_map, length_seq in Hlen. lia.
Qed.

(** The fuel [get_acc_cont_obj] gives the loop is enough: more fuel reads
    the same metadata. *)
Lemma read_metadata_fuel (attrs : list (string * string)) (fuel key : nat)
    (metadata : string) :
  (length attrs < fuel)%nat ->
  read_metadata fuel attrs key metadata =
  read_metadata (S (length attrs)) attrs key metadata.
Proof.
  intros Hfuel. destruct (xattr_key_missing attrs key) as (j & Hj & Hnone).
  apply (read_metadata_stops attrs j); [exact Hnone|lia|lia].
Qed.

(** A file without the first metadata attribute has the empty string for
    metadata, and what the unpickler raises on it leaves
    [get_acc_cont_obj]. *)
Lemma get_acc_cont_obj_no_metadata (W : world) (filename : string)
    (attrs : list (string * string)) (e : pyexn) :
  fs_open W filename = Some attrs ->
  assoc "user.swift.metadata" attrs = None ->
  pickle_loads W EmptyString = Raise e ->
  get_acc_cont_obj W filename = Raise e.
Proof.
  intros Hopen Hnone Hpickle. unfold get_acc_cont_obj. rewrite Hopen.
  cbn [read_metadata]. change (xattr_key 0) with "user.swift.metadata".
  by rewrite Hnone, Hpickle.
Qed.

(** ** Running the planner's statements *)

Lemma pbind_return {S A B : Type} (c : prog S A) (k : A -> prog S B)
    (s s' : S) (a : A) :
  c s = (s', Return a) -> pbind c k s = k a s'.
Proof. unfold pbind. by intros ->. Qed.

Lemma pbind_raise {S A B : Type} (c : prog S A) (k : A -> prog S B)
    (s s' : S) (e : pyexn) :
  c s = (s', Raise e) -> pbind c k s = (s', Raise e).
Proof. unfold pbind. by intros ->. Qed.

Lemma pbind_assoc {S A B C : Type} (c : prog S A) (k : A -> prog S B)
    (h : B -> prog S C) (s : S) :
  pbind (pbind c k) h s = pbind c (fun a => pbind (k a) h) s.
Proof. unfold pbind. destruct (c s) as [s' [a|e]]; reflexivity. Qed.

Lemma pbind_ext {S A B : Type} (c : prog S A) (k k' : A -> prog S B) (s : S) :
  (forall a s', k a s' = k' a s') -> pbind c k s = pbind c k' s.
Proof. intros H. unfold pbind. destruct (c s) as [s' [a|e]]; [apply H|reflexivity]. Qed.

(** The four [print] statements that close each branch. *)
Lemma print_block (a b c d : line) (out : list line) :
  (print a;; print b;; print c;; print d)%prog out
  = (out ++ [a; b; c; d], Return tt).
Proof.
  unfold print, pbind, pmodify. simpl. by rewrite <- !app_assoc.
Qed.

Section PlannerRuns.

Variable W : world.
Variable ring : hashring.
Variable opts : options.

Lemma object_branch_run (oldname : string) (out : list line) :
  object_branch W ring opts oldname out =
    if objects opts && ext_in oldname ["data"; "ts"] then
      match get_acc_cont_obj W oldname with
      | Raise e => (out, Raise e)
      | Return (acc, cont, obj) =>
          match relocate "objects" oldname (ring acc (Some cont) (Some obj)) with
          | Raise e => (out, Raise e)
          | Return (newdir, newname) =>
              (out ++ [Comment (acc +:+ "/" +:+ cont +:+ "/" +:+ obj);
                       Mkdir newdir; Mv oldname newname; Blank], Return tt)
          end
      end
    else (out, Return tt).
Proof.
  unfold object_branch. destruct (objects opts && _); [|reflexivity].
  unfold pbind at 1. unfold plift at 1.
  destruct (get_acc_cont_obj W oldname) as [[[acc cont] obj]|e]; [|reflexivity].
  unfold pbind at 1. unfold plift at 1.
  destruct (relocate _ _ _) as [[newdir newname]|e]; [|reflexivity].
  apply print_block.
Qed.

Lemma container_branch_run (oldname : string) (out : list line) :
  container_branch W ring opts oldname out =
    if containers opts && ext_in oldname ["db"] && contains "containers" oldname then
      match ContainerBroker_get_info W oldname with
      | Raise e => (out, Raise e)
      | Return (acc, cont) =>
          match relocate "containers" oldname (ring acc (Some cont) None) with
          | Raise e => (out, Raise e)
          | Return (newdir, newname) =>
              (out ++ [Comment (acc +:+ "/" +:+ cont);
                       Mkdir newdir; Mv oldname newname; Blank], Return tt)
          end
      end
    else (out, Return tt).
Proof.
  unfold container_branch. destruct (_ && _); [|reflexivity].
  unfold pbind at 1. unfold plift at 1.
  destruct (ContainerBroker_get_info W oldname) as [[acc cont]|e]; [|reflexivity].
  unfold pbind at 1. unfold plift at 1.
  destruct (relocate _ _ _) as [[newdir newname]|e]; [|reflexivity].
  apply print_block.
Qed.

Lemma account_branch_run (oldname : string) (out : list line) :
  account_branch W ring opts oldname out =
    if accounts opts && ext_in oldname ["db"] && contains "accounts" oldname then
      match AccountBroker_get_info W oldname with
      | Raise e => (out, Raise e)
      | Return acc =>
          match relocate "accounts" oldname (ring acc None None) with
          | Raise e => (out, Raise e)
          | Return (newdir, newname) =>
              (out ++ [Comment acc; Mkdir newdir; Mv oldname newname; Blank],
               Return tt)
          end
      end
    else (out, Return tt).
Proof.
  unfold account_branch. destruct (_ && _); [|reflexivity].
  unfold pbind at 1. unfold plift at 1.
  destruct (AccountBroker_get_info W oldname) as [acc|e]; [|reflexivity].
  unfold pbind at 1. unfold plift at 1.
  destruct (relocate _ _ _) as [[newdir newname]|e]; [|reflexivity].
  apply print_block.
Qed.

Lemma visit_file_run (pe : nat) (root filename : string) (out : list line) :
  visit_file W ring opts pe root filename out =
    (object_branch W ring opts (os_path_join root filename);;
     container_branch W ring opts (os_path_join root filename);;
     account_branch W ring opts (os_path_join root filename))%prog out.
Proof. reflexivity. Qed.

Lemma visit_files_app (pe : nat) (root : string) (f1 f2 : list string)
    (out : list line) :
  visit_files W ring opts pe root (f1 ++ f2) out =
    (visit_files W ring opts pe root f1;;
     visit_files W ring opts pe root f2)%prog out.
Proof.
  revert out. induction f1 as [|f f1 IH]; intros out; [reflexivity|].
  simpl. rewrite pbind_assoc. apply pbind_ext. intros _ out'. apply IH.
Qed.

Lemma visit_dirs_app (pe : nat)
    (w1 w2 : list (string * list string * list string)) (out : list line) :
  visit_dirs W ring opts pe (w1 ++ w2) out =
    (visit_dirs W ring opts pe w1;; visit_dirs W ring opts pe w2)%prog out.
Proof.
  revert out. induction w1 as [|[[root dirs] files] w1 IH]; intros out;
    [reflexivity|].
  simpl. rewrite pbind_assoc. apply pbind_ext. intros _ out'. apply IH.
Qed.

End PlannerRuns.

(** ** Where the move instructions come from *)

Lemma mv_sources_app (l1 l2 : list line) :
  mv_sources (l1 ++ l2) = mv_sources l1 ++ mv_sources l2.
Proof.
  induction l1 as [|l l1 IH]; [reflexivity|].
  destruct l; simpl; by rewrite ?IH.
Qed.

Lemma moves_pret : moves_at_most (pret tt) [].
Proof.
  intros out. exists [], (Return tt). by rewrite app_nil_r.
Qed.

Lemma moves_weaken (c : prog (list line) unit) (s1 s2 : list string) :
  s1 `sublist_of` s2 -> moves_at_most c s1 -> moves_at_most c s2.
Proof.
  intros Hsub Hc out. destruct (Hc out) as (lines & res & Hrun & Hmv).
  exists lines, res. split; [exact Hrun|]. by etrans.
Qed.

Lemma moves_seq (c1 c2 : prog (list line) unit) (s1 s2 : list string) :
  moves_at_most c1 s1 -> moves_at_most c2 s2 ->
  moves_at_most (c1;; c2)%prog (s1 ++ s2).
Proof.
  intros H1 H2 out. destruct (H1 out) as (l1 & res1 & Hrun1 & Hmv1).
  destruct res1 as [[]|e].
  - destruct (H2 (out ++ l1)) as (l2 & res2 & Hrun2 & Hmv2).
    exists (l1 ++ l2), res2. split.
    + rewrite (pbind_return _ _ _ _ _ Hrun1), Hrun2. by rewrite app_assoc.
    + rewrite mv_sources_app. by apply sublist_app.
  - exists l1, (Raise e). split.
    + by rewrite (pbind_raise _ _ _ _ _ Hrun1).
    + by apply sublist_inserts_r.
Qed.

Section Moves.

Variable W : world.
Variable ring : hashring.
Variable opts : options.

Lemma moves_object_branch (oldname : string) :
  moves_at_most (object_branch W ring opts oldname)
    (if objects opts && ext_in oldname ["data"; "ts"] then [oldname] else []).
Proof.
  intros out. rewrite object_branch_run.
  destruct (objects opts && _).
  - destruct (get_acc_cont_obj W oldname) as [[[acc cont] obj]|e].
    + destruct (relocate _ _ _) as [[newdir newname]|e].
      * eexists _, _. split; [reflexivity|]. reflexivity.
      * exists [], (Raise e). rewrite app_nil_r. split; [reflexivity|apply sublist_nil_l].
    + exists [], (Raise e). rewrite app_nil_r. split; [reflexivity|apply sublist_nil_l].
  - exists [], (Return tt). rewrite app_nil_r. split; reflexivity.
Qed.

Lemma moves_container_branch (oldname : string) :
  moves_at_most (container_branch W ring opts oldname)
    (if containers opts && ext_in oldname ["db"] && contains "containers" oldname
     then [oldname] else []).
Proof.
  intros out. rewrite container_branch_run.
  destruct (_ && _).
  - destruct (ContainerBroker_get_info W oldname) as [[acc cont]|e].
    + destruct (relocate _ _ _) as [[newdir newname]|e].
      * eexists _, _. split; [reflexivity|]. reflexivity.
      * exists [], (Raise e). rewrite app_nil_r. split; [reflexivity|apply sublist_nil_l].
    + exists [], (Raise e). rewrite app_nil_r. split; [reflexivity|apply sublist_nil_l].
  - exists [], (Return tt). rewrite app_nil_r. split; reflexivity.
Qed.

Lemma moves_account_branch (oldname : string) :
  moves_at_most (account_branch W ring opts oldname)
    (if accounts opts && ext_in oldname ["db"] && contains "accounts" oldname
     then [oldname] else []).
Proof.
  intros out. rewrite account_branch_run.
  destruct (_ && _).
  - destruct (AccountBroker_get_info W oldname) as [acc|e].
    + destruct (relocate _ _ _) as [[newdir newname]|e].
      * eexists _, _. split; [reflexivity|]. reflexivity.
      * exists [], (Raise e). rewrite app_nil_r. split; [reflexivity|apply sublist_nil_l].
    + exists [], (Raise e). rewrite app_nil_r. split; [reflexivity|apply sublist_nil_l].
  - exists [], (Return tt). rewrite app_nil_r. split; reflexivity.
Qed.

Lemma moves_visit_file (pe : nat) (root filename : string) :
  moves_at_most (visit_file W ring opts pe root filename)
    (move_slots opts (os_path_join root filename)).
Proof.
  unfold visit_file, move_slots.
  apply moves_seq; [apply moves_object_branch|].
  apply moves_seq; [apply moves_container_branch | apply moves_account_branch].
Qed.

Lemma moves_visit_files (pe : nat) (root : string) (files : list string) :
  moves_at_most (visit_files W ring opts pe root files)
    (flat_map (move_slots opts) (map (os_path_join root) files)).
Proof.
  induction files as [|f files IH]; simpl.
  - apply moves_pret.
  - apply moves_seq; [apply moves_visit_file | exact IH].
Qed.

Lemma moves_visit_dirs (pe : nat)
    (walk : list (string * list string * list string)) :
  moves_at_most (visit_dirs W ring opts pe walk)
    (flat_map (move_slots opts) (visited_files walk)).
Proof.
  induction walk as [|[[root dirs] files] walk IH]; simpl.
  - apply moves_pret.
  - rewrite flat_map_app. apply moves_seq; [|exact IH].
    destruct (negb (contains "quarantined" root)).
    + apply moves_visit_files.
    + apply moves_pret.
Qed.

End Moves.

Lemma moves_find_all_files (W : world) (opts : options) (ringfile path : string) :
  moves_at_most (find_all_files W ringfile path opts)
    (flat_map (move_slots opts) (visited_files (os_walk W path))).
Proof.
  intros out. unfold find_all_files, pbind at 1, plift at 1.
  destruct (Ring W ringfile) as [rg|e].
  - apply moves_visit_dirs.
  - exists [], (Raise e). rewrite app_nil_r. split; [reflexivity|apply sublist_nil_l].
Qed.

(** A slot list only ever names its own file. *)
Lemma move_slots_own (opts : options) (oldname x : string) :
  In x (move_slots opts oldname) -> x = oldname.
Proof.
  unfold move_slots. rewrite !in_app_iff.
  intros [H|[H|H]]; revert H;
    match goal with |- context [if ?c then _ else _] => destruct c end;
    simpl; intuition.
Qed.

(** No extension is both an object extension and a database extension. *)
Lemma ext_in_exclusive (oldname : string) :
  ext_in oldname ["data"; "ts"] = true -> ext_in oldname ["db"] = false.
Proof.
  unfold ext_in. destruct (last (split "." oldname)) as [ext|]; [|discriminate].
  unfold str_in. simpl. rewrite !orb_false_r.
  intros [H|H]%orb_true_iff; apply String.eqb_eq in H; subst; reflexivity.
Qed.

(** Unless both database branches take the file, it has one slot at most. *)
Lemma move_slots_once (opts : options) (oldname : string) :
  selected_twice opts oldname = false ->
  move_slots opts oldname `sublist_of` [oldname].
Proof.
  unfold selected_twice, move_slots. intros Htwice.
  destruct (ext_in oldname ["data"; "ts"]) eqn:Eobj.
  - rewrite (ext_in_exclusive _ Eobj), !andb_false_r. simpl.
    rewrite app_nil_r. destruct (objects opts && true); [reflexivity|apply sublist_nil_l].
  - rewrite andb_false_r. simpl.
    destruct (containers opts && ext_in oldname ["db"] && contains "containers" oldname);
      destruct (accounts opts && ext_in oldname ["db"] && contains "accounts" oldname);
      simpl in *; try discriminate; try reflexivity; apply sublist_nil_l.
Qed.

Lemma move_slots_within (opts : options) (files : list string) :
  Forall (fun oldname => selected_twice opts oldname = false) files ->
  flat_map (move_slots opts) files `sublist_of` files.
Proof.
  induction 1 as [|o files Ho _ IH]; simpl; [reflexivity|].
  change (o :: files) with ([o] ++ files).
  apply sublist_app; [by apply move_slots_once | exact IH].
Qed.

(** The files handed to the loop body are files of the walk, in
    directories whose path does not contain [quarantined]. *)
Lemma visited_files_origin
    (walk : list (string * list string * list string)) (oldname : string) :
  In oldname (visited_files walk) ->
  exists root dirs files filename,
    In (root, dirs, files) walk /\ In filename files /\
    oldname = os_path_join root filename /\
    contains "quarantined" root = false.
Proof.
  induction walk as [|[[root dirs] files] walk IH]; simpl; [intros []|].
  rewrite in_app_iff. intros [H|H].
  - destruct (contains "quarantined" root) eqn:E; simpl in H; [destruct H|].
    apply in_map_iff in H as (filename & <- & Hin).
    exists root, dirs, files, filename. auto.
  - destruct (IH H) as (root' & dirs' & files' & filename & Hin & ?).
    exists root', dirs', files', filename. auto.
Qed.

(** ** Paths that already carry the target partition *)


(** Skipping the quarantined directories one by one is the same as
    walking the tree without them. *)
Lemma visit_dirs_unquarantined (W : world) (ring : hashring) (opts : options)
    (pe : nat) (walk : list (string * list string * list string))
    (out : list line) :
  visit_dirs W ring opts pe walk out =
  visit_dirs W ring opts pe (unquarantined walk) out.
Proof.
  revert out. induction walk as [|[[root dirs] files] walk IH]; intros out;
    [reflexivity|].
  unfold unquarantined. cbn [filter list_filter below_quarantined].
  destruct (str_in "quarantined" (split "/" root)) eqn:Eseg.
  - assert (contains "quarantined" root = true) as Hsub.
    { apply segment_contains. unfold str_in in Eseg.
      apply existsb_exists in Eseg as (seg & Hin & Heq).
      apply String.eqb_eq in Heq. by subst. }
    rewrite decide_False by (simpl; intros []).
    cbn [visit_dirs]. rewrite Hsub. simpl negb. unfold pbind at 1, pret at 1.
    apply IH.
  - rewrite decide_True by (simpl; exact I).
    cbn [visit_dirs]. apply pbind_ext. intros _ out'. apply IH.
Qed.

(** ** The claims about the planner *)




(** C7 (amended): a selected object file whose metadata cannot be
    recovered stops the walk: the exception of [get_acc_cont_obj] leaves
    [find_all_files], the output is what the files before it produced, and
    no later file is visited. *)
Theorem unrecoverable_metadata_stops_walk (W : world) (ringfile path : string)
    (opts : options) (ring : hashring)
    (pre post : list (string * list string * list string))
    (root : string) (dirs before after : list string) (filename : string)
    (out0 out1 : list line) (e : pyexn) :
  Ring W ringfile = Return ring ->
  os_walk W path = pre ++ (root, dirs, before ++ filename :: after) :: post ->
  contains "quarantined" root = false ->
  objects opts = true ->
  ext_in (os_path_join root filename) ["data"; "ts"] = true ->
  get_acc_cont_obj W (os_path_join root filename) = Raise e ->
  visit_dirs W ring opts (length (split "/" (strip_slash path)))
    (pre ++ [(root, dirs, before)]) out0 = (out1, Return tt) ->
  find_all_files W ringfile path opts out0 = (out1, Raise e).
Proof.
  intros Hring Hwalk Hq Hopt Hext Hmeta Hpre.
  unfold find_all_files.
  rewrite (pbind_return _ _ out0 out0 ring) by (unfold plift; by rewrite Hring).
  rewrite Hwalk.
  set (pe := length (split "/" (strip_slash path))) in *.
  rewrite visit_dirs_app in Hpre.
  destruct (visit_dirs W ring opts pe pre out0) as [outp [[]|ep]] eqn:Epre.
  - rewrite (pbind_return _ _ _ _ _ Epre) in Hpre.
    rewrite visit_dirs_app, (pbind_return _ _ _ _ _ Epre).
    cbn [visit_dirs] in Hpre |- *. rewrite Hq in Hpre |- *.
    cbn [negb] in Hpre |- *.
    destruct (visit_files W ring opts pe root before outp)
      as [outb [[]|eb]] eqn:Ebefore.
    + rewrite (pbind_return _ _ _ _ _ Ebefore) in Hpre.
      unfold pret in Hpre. injection Hpre as ->.
      apply pbind_raise.
      rewrite visit_files_app, (pbind_return _ _ _ _ _ Ebefore).
      cbn [visit_files]. apply pbind_raise.
      rewrite visit_file_run. apply pbind_raise.
      by rewrite object_branch_run, Hopt, Hext, Hmeta.
    + rewrite (pbind_raise _ _ _ _ _ Ebefore) in Hpre. discriminate.
  - rewrite (pbind_raise _ _ _ _ _ Epre) in Hpre. discriminate.
Qed.

Lemma unrecoverable_metadata_stops_walk_witness :
  find_all_files damaged_world "object.ring.gz" "/srv/node"
    (mkOptions true false false) [] = ([], Raise EOFError).
Proof.
  apply (unrecoverable_metadata_stops_walk damaged_world "object.ring.gz"
           "/srv/node" (mkOptions true false false) (fun _ _ _ => 12)
           [] [("/srv/node/sda/objects/7/abc/0f", [], ["1380.data"])]
           "/srv/node/sda/objects/3/abc/0a" [] [] [] "1379.data");
    reflexivity.
Defined.

(** C7 as stated fails: the file without metadata is not skipped.  The
    walk of [damaged_world] ends in [EOFError] with nothing printed, while
    the intact file behind it, walked alone, has a move to print. *)
Lemma damaged_file_is_fatal :
  fs_open damaged_world "/srv/node/sda/objects/3/abc/0a/1379.data" = Some [] /\
  find_all_files damaged_world "object.ring.gz" "/srv/node"
    (mkOptions true false false) [] = ([], Raise EOFError) /\
  find_all_files intact_world "object.ring.gz" "/srv/node"
    (mkOptions true false false) [] =
  ([Comment "AUTH_a/c/o"; Mkdir "/srv/node/sda/objects/12/abc/0f";
    Mv "/srv/node/sda/objects/7/abc/0f/1380.data"
       "/srv/node/sda/objects/12/abc/0f/1380.data"; Blank], Return tt).
Proof. repeat split. Qed.

(** C8: the plan is the plan of the walk without the directories that lie
    below a path segment named [quarantined], and every file that is the
    source of a printed move is a file of the walk whose directory path
    has no such segment. *)
Theorem quarantined_files_never_planned (W : world) (ringfile path : string)
    (opts : options) :
  (forall out,
      find_all_files W ringfile path opts out =
      (do ring <- plift (Ring W ringfile);
       visit_dirs W ring opts (length (split "/" (strip_slash path)))
         (unquarantined (os_walk W path)))%prog out) /\
  (forall out res oldname,
      find_all_files W ringfile path opts [] = (out, res) ->
      In oldname (mv_sources out) ->
      exists root dirs files filename,
        In (root, dirs, files) (os_walk W path) /\
        In filename files /\
        oldname = os_path_join root filename /\
        ~ In "quarantined" (split "/" root)).
Proof.
  split.
  - intros out. unfold find_all_files. apply pbind_ext.
    intros ring out'. apply visit_dirs_unquarantined.
  - intros out res oldname Hrun Hin.
    destruct (moves_find_all_files W opts ringfile path [])
      as (lines & res' & Hrun' & Hsub).
    rewrite Hrun in Hrun'. injection Hrun' as -> _.
    apply list_elem_of_In in Hin.
    pose proof (elem_of_sublist _ _ _ Hin Hsub) as Hslot.
    apply list_elem_of_In, in_flat_map in Hslot as (o & Ho & Hown).
    apply move_slots_own in Hown as ->.
    destruct (visited_files_origin _ _ Ho)
      as (root & dirs & files & filename & Hentry & Hfile & -> & Hq).
    exists root, dirs, files, filename. repeat split; try assumption.
    intros Hseg. apply segment_contains in Hseg. congruence.
Qed.

Lemma quarantined_files_never_planned_witness :
  exists root dirs files filename,
    In (root, dirs, files) (os_walk intact_world "/srv/node") /\
    In filename files /\
    "/srv/node/sda/objects/7/abc/0f/1380.data" = os_path_join root filename /\
    ~ In "quarantined" (split "/" root).
Proof.
  eapply (proj2 (quarantined_files_never_planned intact_world "object.ring.gz"
                   "/srv/node" (mkOptions true false false))).
  - reflexivity.
  - simpl. left. reflexivity.
Defined.

(** C9 (amended): in one pass over a walk that lists each file once, no
    file is the source of more than one printed move, provided no visited
    file is taken by both the container branch and the account branch (a
    database file whose path contains both [containers] and [accounts],
    with both kinds selected). *)
Theorem at_most_one_move_per_file (W : world) (ringfile path : string)
    (opts : options) (out : list line) (res : outcome unit) :
  NoDup (visited_files (os_walk W path)) ->
  Forall (fun oldname => selected_twice opts oldname = false)
         (visited_files (os_walk W path)) ->
  find_all_files W ringfile path opts [] = (out, res) ->
  NoDup (mv_sources out).
Proof.
  intros Hnodup Honce Hrun.
  destruct (moves_find_all_files W opts ringfile path [])
    as (lines & res' & Hrun' & Hsub).
  rewrite Hrun in Hrun'. injection Hrun' as -> _.
  eapply sublist_NoDup; [exact Hnodup|].
  etrans; [exact Hsub|]. by apply move_slots_within.
Qed.

Lemma at_most_one_move_per_file_witness :
  NoDup (mv_sources
           (fst (find_all_files intact_world "object.ring.gz" "/srv/node"
                   (mkOptions true true true) []))).
Proof.
  eapply (at_most_one_move_per_file intact_world "object.ring.gz" "/srv/node"
            (mkOptions true true true)).
  - simpl. apply NoDup_singleton.
  - simpl. repeat constructor.
  - reflexivity.
Defined.

(** C9 as stated fails: with containers and accounts both selected, the
    one database file of [two_kinds_world] is the source of two moves. *)
Lemma database_file_moved_twice :
  visited_files (os_walk two_kinds_world "/srv")
    = ["/srv/accounts/sdb/containers/5/abc/0f/0f.db"] /\
  find_all_files two_kinds_world "container.ring.gz" "/srv"
    (mkOptions false true true) [] =
  ([Comment "AUTH_a/c"; Mkdir "/srv/accounts/sdb/containers/9/abc/0f";
    Mv "/srv/accounts/sdb/containers/5/abc/0f/0f.db"
       "/srv/accounts/sdb/containers/9/abc/0f/0f.db"; Blank;
    Comment "AUTH_a"; Mkdir "/srv/accounts/9/containers/5/abc/0f";
    Mv "/srv/accounts/sdb/containers/5/abc/0f/0f.db"
       "/srv/accounts/9/containers/5/abc/0f/0f.db"; Blank], Return tt) /\
  ~ NoDup (mv_sources
             (fst (find_all_files two_kinds_world "container.ring.gz" "/srv"
                     (mkOptions false true true) []))).
Proof.
  split; [reflexivity|]. split; [reflexivity|].
  simpl. intros H. apply NoDup_cons in H as [Hin _].
  apply Hin. left.
Qed.

(** * Further properties of the ring transforms *)

Lemma count_dev_twice (d : Z) (row : list Z) :
  count_dev d (flat_map (fun x => [x; x]) row) = (2 * count_dev d row)%nat.
Proof.
  induction row as [|x row IH]; [reflexivity|].
  simpl flat_map. simpl count_dev. rewrite IH. destruct (x =? d); lia.
Qed.

Lemma assignments_twice (d : Z) (replicas : list (list Z)) :
  assignments d (map (flat_map (fun x => [x; x])) replicas)
  = (2 * assignments d replicas)%nat.
Proof.
  induction replicas as [|row replicas IH]; [reflexivity|].
  simpl map. simpl assignments. rewrite IH, count_dev_twice. lia.
Qed.

Lemma fits_H_twice (row : list Z) :
  Forall fits_H row -> Forall fits_H (flat_map (fun x => [x; x]) row).
Proof.
  induction 1 as [|x row Hx _ IH]; simpl; [constructor|].
  constructor; [exact Hx|]. constructor; [exact Hx|exact IH].
Qed.

Lemma array_H_append_returns (a new : list Z) (v : Z) :
  array_H_append a v = Return new -> fits_H v /\ new = a ++ [v].
Proof.
  unfold array_H_append, fits_H.
  destruct (Z.leb_spec 0 v); simpl; [|discriminate].
  destruct (Z.leb_spec v 65535); simpl; [|discriminate].
  intros [= <-]. split; [lia|reflexivity].
Qed.

Lemma shift_replica_returns (replica acc new : list Z) :
  shift_replica replica acc = Return new -> Forall fits_H replica.
Proof.
  revert acc. induction replica as [|d rest IH]; intros acc; simpl.
  - constructor.
  - destruct (array_H_append acc d) as [a1|e1] eqn:E1; simpl; [|discriminate].
    destruct (array_H_append a1 d) as [a2|e2] eqn:E2; simpl; [|discriminate].
    intros Hrest. constructor.
    + by apply array_H_append_returns in E1 as [Hfit _].
    + eapply IH, Hrest.
Qed.

Lemma shift_replicas_returns (replicas acc new : list (list Z)) :
  shift_replicas replicas acc = Return new -> Forall (Forall fits_H) replicas.
Proof.
  revert acc. induction replicas as [|row rest IH]; intros acc; simpl.
  - constructor.
  - destruct (shift_replica row []) as [new_row|e] eqn:E; simpl; [|discriminate].
    intros H. constructor; [eapply shift_replica_returns, E | eapply IH, H].
Qed.

(** The result of a run that returns, read back from the input. *)
Lemma ring_shift_power_returns (r r' : ring) (res : ring) :
  ring_shift_power r = (r', Return res) ->
  exists replicas ds moves,
    _replica2part2dev r = Some replicas /\
    Forall (Forall fits_H) replicas /\
    devs r = Some ds /\
    _last_part_moves r = Some moves /\
    res = r' /\
    r' = mkRing (Some (map (flat_map (fun d => [d; d])) replicas))
                (Some (shift_devs ds))
                (Some (flat_map (fun t => [t; t]) moves))
                (_last_part_moves_epoch r) (part_power r + 1) (parts r * 2)
                (devs_changed r) (version r).
Proof.
  rewrite ring_shift_power_run.
  destruct (_replica2part2dev r) as [replicas|] eqn:Erep; [|discriminate].
  destruct (shift_replicas replicas []) as [new|e] eqn:Enew; [|discriminate].
  destruct (devs r) as [ds|] eqn:Eds; [|discriminate].
  destruct (_last_part_moves r) as [moves|] eqn:Elpm; [|discriminate].
  pose proof (shift_replicas_returns _ _ _ Enew) as Hfit.
  rewrite (shift_replicas_fits _ _ Hfit) in Enew. injection Enew as <-.
  simpl. intros [= <- <-]. exists replicas, ds, moves.
  rewrite shift_last_part_moves_eq.
  repeat split; try reflexivity; assumption.
Qed.

Lemma reset_devs_shift_devs (ds : list (option dev)) :
  reset_devs (shift_devs ds) = reset_devs ds.
Proof.
  induction ds as [|[d|] ds IH]; simpl; [reflexivity| |]; by rewrite IH.
Qed.

Lemma reset_devs_reset_devs (ds : list (option dev)) :
  reset_devs (reset_devs ds) = reset_devs ds.
Proof.
  induction ds as [|[d|] ds IH]; simpl; [reflexivity| |]; by rewrite IH.
Qed.

Lemma twice_twice_lookup {A : Type} (l : list A) (p j : nat) :
  (j < 4)%nat ->
  flat_map (fun x => [x; x]) (flat_map (fun x => [x; x]) l) !! (4 * p + j)%nat
  = l !! p.
Proof.
  intros Hj.
  assert (exists q b, (b < 2)%nat /\ (4 * p + j = 2 * q + b)%nat /\
                      exists c, (c < 2)%nat /\ (q = 2 * p + c)%nat)
    as (q & b & Hb & -> & c & Hc & ->).
  { exists (2 * p + j / 2)%nat, (j mod 2)%nat.
    split; [apply Nat.mod_upper_bound; lia|].
    split; [pose proof (Nat.div_mod_eq j 2); lia|].
    exists (j / 2)%nat. split; [|reflexivity].
    apply Nat.Div0.div_lt_upper_bound; lia. }
  destruct (twice_lookup (flat_map (fun x => [x; x]) l) (2 * p + c)) as [H0 H1].
  destruct (twice_lookup l p) as [G0 G1].
  assert (b = 0 \/ b = 1)%nat as [-> | ->] by lia;
    assert (c = 0 \/ c = 1)%nat as [-> | ->] by lia;
    rewrite ?Nat.add_0_r in *; congruence.
Qed.

(** ** Invariants, outcomes and compositions of the transforms *)

(** X1: a run of [ring_shift_power] that returns keeps the geometry of a
    builder file: rows with one entry per partition stay so, and a
    partition count of two to the partition power stays so. *)
Theorem ring_shift_power_keeps_geometry (r r' : ring) :
  ring_shift_power r = (r', Return r') ->
  (rows_complete r -> rows_complete r') /\
  (power_of_two r -> power_of_two r').
Proof.
  intros Hrun.
  destruct (ring_shift_power_returns _ _ _ Hrun)
    as (replicas & ds & moves & Hrep & _ & _ & _ & _ & ->).
  split.
  - intros Hrows replicas' row' [= <-] Hin. simpl.
    apply in_map_iff in Hin as (row & <- & Hin).
    rewrite twice_length, <- (Hrows _ _ Hrep Hin). lia.
  - intros [Hpos Hpow]. unfold power_of_two. simpl. split; [lia|].
    rewrite Hpow, Z.pow_add_r by lia. lia.
Qed.

Lemma ring_shift_power_keeps_geometry_witness :
  rows_complete (fst (ring_shift_power sample_ring)) /\
  power_of_two (fst (ring_shift_power sample_ring)).
Proof.
  destruct (ring_shift_power_keeps_geometry sample_ring
              (fst (ring_shift_power sample_ring)) eq_refl) as [Hrows Hpow].
  split.
  - apply Hrows. intros replicas row [= <-] Hin. simpl in Hin.
    destruct Hin as [<-|[<-|[]]]; reflexivity.
  - apply Hpow. split; [simpl; lia | reflexivity].
Defined.

(** X2: a run of [ring_shift_power] that returns keeps the ownership
    invariant: if every present device's ['parts'] was the number of
    (replica, partition) pairs assigned to its slot, it still is. *)
Theorem ring_shift_power_keeps_parts_counted (r r' : ring) :
  ring_shift_power r = (r', Return r') ->
  parts_counted r -> parts_counted r'.
Proof.
  intros Hrun Hcount.
  destruct (ring_shift_power_returns _ _ _ Hrun)
    as (replicas & ds & moves & Hrep & _ & Hds & _ & _ & ->).
  intros replicas' ds' i d' [= <-] [= <-]. rewrite shift_devs_lookup.
  destruct (ds !! i) as [[d|]|] eqn:Ei; intros [= <-]. simpl.
  rewrite (Hcount _ _ _ _ Hrep Hds Ei), assignments_twice. lia.
Qed.

Lemma ring_shift_power_keeps_parts_counted_witness :
  parts_counted (fst (ring_shift_power sample_ring)).
Proof.
  apply (ring_shift_power_keeps_parts_counted sample_ring _ eq_refl).
  intros replicas ds i d [= <-] [= <-] Hi.
  destruct i as [|[|[|i]]]; simpl in Hi; try discriminate;
    injection Hi as <-; reflexivity.
Defined.

(** X3: what [ring_shift_power] does on any table.  It returns exactly on
    the tables that have the replica assignment with indices in 0..65535,
    the device list and the last-moved list set; it raises nothing but
    [TypeError] and [OverflowError]; and it raises [OverflowError] exactly
    when the assignment is set and holds an index outside 0..65535,
    whatever else is unset. *)
Theorem ring_shift_power_outcomes (r : ring) :
  ((exists r', ring_shift_power r = (r', Return r')) <-> shift_ready r) /\
  (forall e, snd (ring_shift_power r) = Raise e ->
             e = TypeError \/ e = OverflowError) /\
  (snd (ring_shift_power r) = Raise OverflowError <->
   exists replicas,
     _replica2part2dev r = Some replicas /\
     ~ Forall (Forall fits_H) replicas).
Proof.
  split; [split|split].
  - intros [r' Hrun].
    destruct (ring_shift_power_returns _ _ _ Hrun)
      as (replicas & ds & moves & Hrep & Hfit & Hds & Hlpm & _).
    split; [by exists replicas|]. split; congruence.
  - intros Hready.
    destruct (ring_shift_power_ready r Hready) as (? & ? & ? & _ & _ & _ & Hrun).
    eexists; exact Hrun.
  - intros e. rewrite ring_shift_power_run.
    destruct (_replica2part2dev r) as [replicas|]; [|intros [= <-]; by left].
    destruct (shift_replicas replicas []) as [new|e'] eqn:Enew.
    + destruct (devs r); [|intros [= <-]; by left].
      destruct (_last_part_moves r); [discriminate|intros [= <-]; by left].
    + intros [= <-]. right. eapply shift_replicas_raise, Enew.
  - rewrite ring_shift_power_run. split.
    + destruct (_replica2part2dev r) as [replicas|]; [|discriminate].
      destruct (shift_replicas replicas []) as [new|e'] eqn:Enew.
      * destruct (devs r); [|discriminate].
        destruct (_last_part_moves r); discriminate.
      * intros _. exists replicas. split; [reflexivity|].
        intros Hfit. rewrite (shift_replicas_fits _ _ Hfit) in Enew. discriminate.
    + intros (replicas & -> & Hnot).
      destruct (shift_replicas replicas []) as [new|e'] eqn:Enew.
      * exfalso. eapply Hnot, shift_replicas_returns, Enew.
      * simpl. f_equal. eapply shift_replicas_raise, Enew.
Qed.

Lemma ring_shift_power_outcomes_witness :
  shift_ready sample_ring /\
  snd (ring_shift_power wide_ring) = Raise OverflowError.
Proof.
  destruct (ring_shift_power_outcomes sample_ring) as [Hreturns _].
  destruct (ring_shift_power_outcomes wide_ring) as (_ & _ & Hoverflow).
  split.
  - apply Hreturns. eexists. reflexivity.
  - apply Hoverflow. eexists. split; [reflexivity|].
    intros Hfit. apply Forall_cons in Hfit as [_ Hfit].
    apply Forall_cons in Hfit as [Hrow _].
    apply Forall_cons in Hrow as [_ Hrow].
    apply Forall_cons in Hrow as [Hwide _].
    unfold fits_H in Hwide. lia.
Defined.

(** X4: [ring_shift_power] can be repeated.  On a table it accepts, two
    runs in a row both return; the partition count is multiplied by four,
    the partition power grows by two, and the device of an original
    partition [p] is found at the four partitions [4p .. 4p+3]. *)
Theorem ring_shift_power_twice (r : ring) :
  shift_ready r ->
  exists r1 r2 replicas replicas2,
    ring_shift_power r = (r1, Return r1) /\
    ring_shift_power r1 = (r2, Return r2) /\
    parts r2 = 4 * parts r /\
    part_power r2 = part_power r + 2 /\
    _replica2part2dev r = Some replicas /\
    _replica2part2dev r2 = Some replicas2 /\
    forall (k : nat) (row : list Z),
      replicas !! k = Some row ->
      exists row2,
        replicas2 !! k = Some row2 /\
        length row2 = (4 * length row)%nat /\
        forall (p j : nat) (d : Z),
          row !! p = Some d -> (j < 4)%nat ->
          row2 !! (4 * p + j)%nat = Some d.
Proof.
  intros Hready.
  destruct (ring_shift_power_ready r Hready)
    as (replicas & ds & moves & Hrep & Hds & Hlpm & Hrun1).
  destruct Hready as [(replicas0 & Hrep0 & Hfit) _].
  rewrite Hrep in Hrep0. injection Hrep0 as <-.
  match type of Hrun1 with
  | let r' := ?t in _ => set (r1 := t) in *
  end.
  assert (shift_ready r1) as Hready1.
  { split; [|split; discriminate].
    eexists. split; [reflexivity|].
    apply Forall_forall. intros row' Hin. apply list_elem_of_In in Hin.
    apply in_map_iff in Hin as (row & <- & Hin).
    apply fits_H_twice. eapply Forall_forall in Hfit; [exact Hfit|].
    by apply list_elem_of_In. }
  destruct (ring_shift_power_ready r1 Hready1)
    as (replicas1 & ds1 & moves1 & Hrep1 & _ & _ & Hrun2).
  simpl in Hrep1. injection Hrep1 as <-.
  eexists r1, _, replicas, _. split; [exact Hrun1|]. split; [exact Hrun2|].
  split; [simpl; lia|]. split; [simpl; lia|]. split; [exact Hrep|].
  split; [reflexivity|].
  intros k row Hk.
  exists (flat_map (fun d => [d; d]) (flat_map (fun d => [d; d]) row)).
  split; [by rewrite !list_lookup_fmap, Hk|].
  split; [rewrite !twice_length; lia|].
  intros p j d Hp Hj. by rewrite twice_twice_lookup.
Qed.

Lemma ring_shift_power_twice_witness :
  exists r1 r2,
    ring_shift_power sample_ring = (r1, Return r1) /\
    ring_shift_power r1 = (r2, Return r2) /\ parts r2 = 16.
Proof.
  destruct (ring_shift_power_twice sample_ring)
    as (r1 & r2 & ? & ? & Hrun1 & Hrun2 & Hparts & _).
  - ready_by_evaluation.
  - exists r1, r2. repeat split; assumption.
Defined.

(** X5: [ring_reset_partitions] is idempotent: on a table with its device
    list set, a second reset returns the table the first one produced. *)
Theorem ring_reset_partitions_idempotent (r : ring) :
  devs r <> None ->
  exists r1,
    ring_reset_partitions r = (r1, Return r1) /\
    ring_reset_partitions r1 = (r1, Return r1).
Proof.
  intros Hds. destruct (devs r) as [ds|] eqn:Eds; [|congruence].
  rewrite ring_reset_partitions_run, Eds. eexists. split; [reflexivity|].
  rewrite ring_reset_partitions_run. simpl.
  by rewrite reset_devs_reset_devs.
Qed.

Lemma ring_reset_partitions_idempotent_witness :
  exists r1,
    ring_reset_partitions sample_ring = (r1, Return r1) /\
    ring_reset_partitions r1 = (r1, Return r1).
Proof.
  apply (ring_reset_partitions_idempotent sample_ring). discriminate.
Defined.

(** X6: a table that has been reset cannot be doubled before it is
    rebalanced: [ring_shift_power] on the result of
    [ring_reset_partitions] raises [TypeError] and leaves the reset table
    as it is. *)
Theorem ring_shift_power_after_reset (r r1 : ring) :
  ring_reset_partitions r = (r1, Return r1) ->
  ring_shift_power r1 = (r1, Raise TypeError).
Proof.
  rewrite ring_reset_partitions_run.
  destruct (devs r) as [ds|]; [|discriminate].
  simpl. intros [= <-]. by rewrite ring_shift_power_run.
Qed.

Lemma ring_shift_power_after_reset_witness :
  ring_shift_power (fst (ring_reset_partitions sample_ring))
  = (fst (ring_reset_partitions sample_ring), Raise TypeError).
Proof.
  apply (ring_shift_power_after_reset sample_ring). reflexivity.
Defined.

(** X7: resetting a doubled table gives the reset of the original table
    with the partition power raised by one and the partition count
    doubled: of all that [ring_shift_power] did, a reset keeps the new
    geometry only. *)
Theorem ring_reset_partitions_after_shift (r r1 : ring) :
  ring_shift_power r = (r1, Return r1) ->
  exists r0 r2,
    ring_reset_partitions r = (r0, Return r0) /\
    ring_reset_partitions r1 = (r2, Return r2) /\
    r2 = set_parts (parts r * 2) (set_part_power (part_power r + 1) r0).
Proof.
  intros Hrun.
  destruct (ring_shift_power_returns _ _ _ Hrun)
    as (replicas & ds & moves & _ & _ & Hds & _ & _ & ->).
  rewrite !ring_reset_partitions_run, Hds. simpl.
  eexists _, _. split; [reflexivity|]. split; [reflexivity|].
  by rewrite reset_devs_shift_devs.
Qed.

Lemma ring_reset_partitions_after_shift_witness :
  exists r0 r2,
    ring_reset_partitions sample_ring = (r0, Return r0) /\
    ring_reset_partitions (fst (ring_shift_power sample_ring)) = (r2, Return r2) /\
    r2 = set_parts 8 (set_part_power 3 r0).
Proof.
  apply (ring_reset_partitions_after_shift sample_ring). reflexivity.
Defined.

(** X8: what the transforms leave alone.  A run of [ring_shift_power]
    that returns changes neither the version, nor [devs_changed], nor the
    last-moved epoch, nor the number of device slots; a run of
    [ring_reset_partitions] that returns changes neither the partition
    power, nor the partition count, nor the identity and attributes of any
    device. *)
Theorem transforms_frame (r r' : ring) :
  (ring_shift_power r = (r', Return r') ->
   version r' = version r /\
   devs_changed r' = devs_changed r /\
   _last_part_moves_epoch r' = _last_part_moves_epoch r /\
   (length <$> devs r') = (length <$> devs r)) /\
  (ring_reset_partitions r = (r', Return r') ->
   part_power r' = part_power r /\
   parts r' = parts r /\
   forall ds (i : nat) (d : dev),
     devs r = Some ds -> ds !! i = Some (Some d) ->
     exists ds' d',
       devs r' = Some ds' /\ ds' !! i = Some (Some d') /\
       dev_id d' = dev_id d /\ dev_attrs d' = dev_attrs d).
Proof.
  split.
  - intros Hrun.
    destruct (ring_shift_power_returns _ _ _ Hrun)
      as (replicas & ds & moves & _ & _ & Hds & _ & _ & ->).
    rewrite Hds. simpl. by rewrite shift_devs_length.
  - rewrite ring_reset_partitions_run.
    destruct (devs r) as [ds|] eqn:Eds; [|discriminate].
    simpl. intros [= <-]. simpl. repeat split.
    intros ds0 i d [= <-] Hi.
    exists (reset_devs ds), (set_dev_parts d 0).
    rewrite reset_devs_lookup, Hi. by repeat split.
Qed.

Lemma transforms_frame_witness :
  version (fst (ring_shift_power sample_ring)) = 7 /\
  part_power (fst (ring_reset_partitions sample_ring)) = 2.
Proof.
  split.
  - apply (proj1 (transforms_frame sample_ring _)). reflexivity.
  - apply (proj2 (transforms_frame sample_ring _)). reflexivity.
Defined.

(** * Further properties of the planner *)

(** ** More on splitting and joining *)

Lemma split_length (sep : ascii) (s : string) :
  length (split sep s) = S (count_char sep s).
Proof.
  induction s as [|c s IH]; [reflexivity|].
  simpl. destruct (Ascii.eqb c sep); simpl; [by rewrite IH|].
  destruct (split sep s) as [|seg rest] eqn:E; [by destruct (split_nonempty sep s)|].
  simpl in *. lia.
Qed.

Lemma split_free (sep : ascii) (s : string) :
  has_char sep s = false -> split sep s = [s].
Proof.
  induction s as [|c s IH]; [reflexivity|].
  simpl. destruct (Ascii.eqb c sep); [discriminate|].
  simpl. intros H. by rewrite (IH H).
Qed.

Lemma split_append (sep : ascii) (a rest : string) :
  has_char sep a = false ->
  split sep (a +:+ String sep rest) = a :: split sep rest.
Proof.
  induction a as [|c a IH].
  - intros _. change (EmptyString +:+ String sep rest) with (String sep rest).
    simpl. by rewrite Ascii.eqb_refl.
  - rewrite append_String. simpl.
    destruct (Ascii.eqb c sep); [discriminate|]. simpl.
    intros H. by rewrite (IH H).
Qed.

Lemma split_pieces_free (sep : ascii) (s : string) :
  Forall (fun seg => has_char sep seg = false) (split sep s).
Proof.
  induction s as [|c s IH]; [by repeat constructor|].
  simpl. destruct (Ascii.eqb c sep) eqn:Ec.
  - by constructor.
  - destruct (split sep s) as [|seg rest]; [repeat constructor; simpl; by rewrite Ec|].
    apply Forall_cons in IH as [Hseg Hrest].
    constructor; [simpl; by rewrite Ec, Hseg | exact Hrest].
Qed.

(** Splitting what was joined from separator-free pieces gives the pieces
    back. *)
Lemma split_join (sep : ascii) (l : list string) :
  l <> [] ->
  Forall (fun seg => has_char sep seg = false) l ->
  split sep (join (String sep EmptyString) l) = l.
Proof.
  induction l as [|x l IH]; [congruence|].
  intros _ Hfree. apply Forall_cons in Hfree as [Hx Hl].
  destruct l as [|y l].
  - simpl. by apply split_free.
  - rewrite join_cons.
    change (String sep EmptyString +:+ join (String sep EmptyString) (y :: l))
      with (String sep (join (String sep EmptyString) (y :: l))).
    rewrite (split_append _ _ _ Hx). f_equal. by apply IH.
Qed.

(** ** More on [get_acc_cont_obj] *)

Lemma read_metadata_chunks (attrs : list (string * string))
    (rest : list string) :
  forall (fuel key : nat) (metadata : string),
    (forall (j : nat) (c : string),
        rest !! j = Some c -> assoc (xattr_key (key + j)) attrs = Some c) ->
    assoc (xattr_key (key + length rest)) attrs = None ->
    (length rest < fuel)%nat ->
    read_metadata fuel attrs key metadata
    = metadata +:+ foldr String.append EmptyString rest.
Proof.
  induction rest as [|c rest IH]; intros fuel key metadata Hall Hend Hfuel.
  - destruct fuel as [|fuel]; [simpl in Hfuel; lia|].
    simpl in *. rewrite Nat.add_0_r in Hend. rewrite Hend.
    clear. induction metadata as [|x m IHm]; [reflexivity|].
    rewrite append_String. by f_equal.
  - destruct fuel as [|fuel]; [simpl in Hfuel; lia|].
    simpl. pose proof (Hall O c eq_refl) as H0. rewrite Nat.add_0_r in H0.
    rewrite H0. rewrite IH.
    + by rewrite append_assoc.
    + intros j c' Hj. replace (S key + j)%nat with (key + S j)%nat by lia.
      by apply Hall.
    + simpl in Hend. by replace (S key + length rest)%nat
        with (key + S (length rest))%nat by lia.
    + simpl in Hfuel. lia.
Qed.

(** X9: the metadata is re-assembled from the numbered attributes in key
    order.  When [user.swift.metadata], [user.swift.metadata1], ... hold
    the chunks of a list and the next key is absent, the loop of
    [get_acc_cont_obj] reads exactly their concatenation, whatever other
    attributes the file has: a chunk behind a gap is never read. *)
Theorem read_metadata_concatenates (attrs : list (string * string))
    (chunks : list string) :
  (forall (k : nat) (c : string),
      chunks !! k = Some c -> assoc (xattr_key k) attrs = Some c) ->
  assoc (xattr_key (length chunks)) attrs = None ->
  read_metadata (S (length attrs)) attrs 0 EmptyString
  = foldr String.append EmptyString chunks.
Proof.
  intros Hall Hend.
  rewrite <- (read_metadata_fuel attrs (S (length attrs + length chunks)))
    by lia.
  rewrite (read_metadata_chunks attrs chunks); try assumption; [reflexivity|lia].
Qed.

Lemma read_metadata_concatenates_witness :
  read_metadata 4
    [("user.swift.metadata1", "bb"); ("user.swift.metadata3", "dd");
     ("user.swift.metadata", "aa")] 0 EmptyString = "aabb".
Proof.
  apply (read_metadata_concatenates
           [("user.swift.metadata1", "bb"); ("user.swift.metadata3", "dd");
            ("user.swift.metadata", "aa")] ["aa"; "bb"]).
  - intros [|[|k]] c Hk; simpl in Hk; try discriminate;
      injection Hk as <-; reflexivity.
  - reflexivity.
Defined.

(** X10: [get_acc_cont_obj] recovers the three parts of an object name.
    When the unpickled dictionary has the name [prefix/account/container/
    obj], with no slash in [prefix], [account] and [container], the
    function returns [(account, container, obj)]: the text before the
    first slash is ignored and the slashes of the object path are kept. *)
Theorem get_acc_cont_obj_parses (W : world) (filename : string)
    (attrs d : list (string * string)) (prefix acc cont obj : string) :
  fs_open W filename = Some attrs ->
  pickle_loads W (read_metadata (S (length attrs)) attrs 0 EmptyString)
    = Return d ->
  assoc "name" d
    = Some (prefix +:+ "/" +:+ acc +:+ "/" +:+ cont +:+ "/" +:+ obj) ->
  has_char "/" prefix = false ->
  has_char "/" acc = false ->
  has_char "/" cont = false ->
  get_acc_cont_obj W filename = Return (acc, cont, obj).
Proof.
  intros Hopen Hpickle Hname Hprefix Hacc Hcont.
  unfold get_acc_cont_obj. rewrite Hopen, Hpickle. simpl obind. rewrite Hname.
  change (prefix +:+ "/" +:+ acc +:+ "/" +:+ cont +:+ "/" +:+ obj)
    with (prefix +:+ String "/" (acc +:+ String "/" (cont +:+ String "/" obj))).
  rewrite (split_append _ _ _ Hprefix), (split_append _ _ _ Hacc),
    (split_append _ _ _ Hcont).
  change (drop 3 (prefix :: acc :: cont :: split "/" obj))
    with (split "/" obj).
  by rewrite join_split.
Qed.

Lemma get_acc_cont_obj_parses_witness :
  get_acc_cont_obj (named_world "/AUTH_a/c/dir/o.jpg") "1380.data"
  = Return ("AUTH_a", "c", "dir/o.jpg").
Proof.
  apply (get_acc_cont_obj_parses (named_world "/AUTH_a/c/dir/o.jpg")
           "1380.data" [("user.swift.metadata", "/AUTH_a/c/dir/o.jpg")]
           [("name", "/AUTH_a/c/dir/o.jpg")] EmptyString
           "AUTH_a" "c" "dir/o.jpg"); reflexivity.
Defined.

(** X11: what a name does to [get_acc_cont_obj], once the file opens and
    its metadata unpickles.  Without a ['name'] entry the function raises
    [AttributeError]; with a name of fewer than two slashes it raises
    [IndexError]; with a name of two slashes or more it returns. *)
Theorem get_acc_cont_obj_name_shape (W : world) (filename : string)
    (attrs d : list (string * string)) :
  fs_open W filename = Some attrs ->
  pickle_loads W (read_metadata (S (length attrs)) attrs 0 EmptyString)
    = Return d ->
  (assoc "name" d = None ->
   get_acc_cont_obj W filename = Raise AttributeError) /\
  (forall name,
      assoc "name" d = Some name ->
      ((count_char "/" name < 2)%nat ->
       get_acc_cont_obj W filename = Raise IndexError) /\
      ((2 <= count_char "/" name)%nat ->
       exists acc cont obj,
         get_acc_cont_obj W filename = Return (acc, cont, obj))).
Proof.
  intros Hopen Hpickle. unfold get_acc_cont_obj. rewrite Hopen, Hpickle.
  simpl obind. split; [by intros ->|].
  intros name ->. pose proof (split_length "/" name) as Hlen.
  unfold list_getitem. split; intros Hcount.
  - destruct (split "/" name) as [|s0 [|s1 [|s2 rest]]]; simpl in *;
      try reflexivity; lia.
  - destruct (split "/" name) as [|s0 [|s1 [|s2 rest]]]; simpl in *; try lia.
    by eexists _, _, _.
Qed.

Lemma get_acc_cont_obj_name_shape_witness :
  get_acc_cont_obj (named_world "/AUTH_a") "1380.data" = Raise IndexError.
Proof.
  destruct (get_acc_cont_obj_name_shape (named_world "/AUTH_a") "1380.data"
              [("user.swift.metadata", "/AUTH_a")] [("name", "/AUTH_a")]
              eq_refl eq_refl) as [_ Hname].
  destruct (Hname "/AUTH_a" eq_refl) as [Hshort _].
  apply Hshort. simpl. lia.
Defined.

(** ** More on the path surgery *)

Lemma uint_no_slash (d : Decimal.uint) :
  has_char "/" (NilEmpty.string_of_uint d) = false.
Proof. induction d; simpl; assumption || reflexivity. Qed.

Lemma nz_uint_no_slash (d : Decimal.uint) :
  has_char "/" (NilZero.string_of_uint d) = false.
Proof.
  destruct d; [reflexivity| ..];
    match goal with
    | |- has_char _ (NilZero.string_of_uint ?x) = _ => exact (uint_no_slash x)
    end.
Qed.

(** [str] of an integer never contains a slash. *)
Lemma str_no_slash (n : Z) : has_char "/" (str n) = false.
Proof.
  unfold str, NilZero.string_of_int.
  destruct (Z.to_int n) as [d|d]; [apply nz_uint_no_slash|].
  cbn [has_char]. rewrite nz_uint_no_slash. reflexivity.
Qed.

Lemma list_index_Return (x : string) (l : list string) (i : nat) :
  list_index x l = Return i ->
  l !! i = Some x /\ forall j y, (j < i)%nat -> l !! j = Some y -> y <> x.
Proof.
  revert i. induction l as [|y l IH]; intros i; simpl; [discriminate|].
  destruct (String.eqb_spec y x) as [->|Hne].
  - intros [= <-]. split; [reflexivity|]. intros j y Hj. lia.
  - destruct (list_index x l) as [i'|e]; simpl; [|discriminate].
    intros [= <-]. destruct (IH i' eq_refl) as [Hi Hbefore].
    split; [exact Hi|]. intros [|j] z Hj; simpl.
    + by intros [= <-].
    + apply Hbefore. lia.
Qed.

Lemma list_index_Raise (x : string) (l : list string) (e : pyexn) :
  list_index x l = Raise e -> e = ValueError /\ ~ In x l.
Proof.
  induction l as [|y l IH]; simpl.
  - intros [= <-]. split; [reflexivity|]. intros [].
  - destruct (String.eqb_spec y x) as [->|Hne]; [discriminate|].
    destruct (list_index x l) as [i'|e']; simpl; [discriminate|].
    intros [= <-]. destruct (IH eq_refl) as [-> Hnot].
    split; [reflexivity|]. intros [?|?]; [congruence|contradiction].
Qed.

(** Overwriting a later position does not move the first occurrence. *)
Lemma list_index_insert_after (x v : string) (l : list string) (i j : nat) :
  list_index x l = Return i -> (i < j)%nat ->
  list_index x (<[j := v]> l) = Return i.
Proof.
  revert i j. induction l as [|y l IH]; intros i j; simpl; [discriminate|].
  destruct (String.eqb_spec y x) as [->|Hne].
  - intros [= <-] Hj. destruct j as [|j]; [lia|].
    simpl. by rewrite String.eqb_refl.
  - destruct (list_index x l) as [i'|e] eqn:E; simpl; [|discriminate].
    intros [= <-] Hj. destruct j as [|j]; [lia|]. simpl.
    destruct (String.eqb_spec y x) as [?|_]; [contradiction|].
    rewrite (IH i' j eq_refl) by lia. reflexivity.
Qed.

(** What a run of [relocate] that returns has computed. *)
Lemma relocate_returns (kind oldname : string) (new_part : Z)
    (newdir newname : string) :
  relocate kind oldname new_part = Return (newdir, newname) ->
  exists i,
    list_index kind (split "/" oldname) = Return i /\
    (i + 1 < length (split "/" oldname))%nat /\
    newname = join "/" (<[(i + 1)%nat := str new_part]> (split "/" oldname)) /\
    newdir = join "/" (removelast
                         (<[(i + 1)%nat := str new_part]> (split "/" oldname))).
Proof.
  unfold relocate.
  destruct (list_index kind (split "/" oldname)) as [i|e]; simpl;
    [|discriminate].
  unfold list_setitem.
  destruct (Nat.ltb_spec (i + 1) (length (split "/" oldname))); simpl;
    [|discriminate].
  intros [= <- <-]. exists i. by repeat split.
Qed.

Lemma split_relocated (oldname : string) (j : nat) (new_part : Z) :
  split "/" (join "/" (<[j := str new_part]> (split "/" oldname)))
  = <[j := str new_part]> (split "/" oldname).
Proof.
  apply split_join.
  - intros Hnil. apply (f_equal length) in Hnil.
    rewrite length_insert in Hnil.
    pose proof (split_nonempty "/" oldname).
    destruct (split "/" oldname); [congruence|discriminate].
  - pose proof (split_pieces_free "/" oldname) as Hfree.
    apply Forall_forall. intros seg Hin.
    apply list_elem_of_lookup in Hin as [k Hk].
    destruct (decide (j = k)) as [->|Hne].
    + destruct (decide (k < length (split "/" oldname))%nat) as [Hlt|Hge].
      * rewrite list_lookup_insert_eq in Hk by exact Hlt.
        injection Hk as <-. apply str_no_slash.
      * rewrite list_insert_ge in Hk by lia.
        apply lookup_lt_Some in Hk. lia.
    + rewrite list_lookup_insert_ne in Hk by exact Hne.
      eapply Forall_forall in Hfree; [exact Hfree|].
      apply list_elem_of_lookup. by exists k.
Qed.

(** X12: the new path differs from the old one in the partition segment
    only.  When [relocate] returns, the kind directory is at some position
    [i] of the old path, the segments of [newname] are those of [oldname]
    with the one at [i + 1] replaced by [str new_part], and [newdir] is
    [newname] without its last segment. *)
Theorem relocate_replaces_partition (kind oldname : string) (new_part : Z)
    (newdir newname : string) :
  relocate kind oldname new_part = Return (newdir, newname) ->
  exists i,
    list_index kind (split "/" oldname) = Return i /\
    split "/" oldname !! i = Some kind /\
    split "/" newname
      = <[(i + 1)%nat := str new_part]> (split "/" oldname) /\
    split "/" newname !! (i + 1)%nat = Some (str new_part) /\
    length (split "/" newname) = length (split "/" oldname) /\
    newdir = join "/" (removelast (split "/" newname)).
Proof.
  intros Hrun.
  destruct (relocate_returns _ _ _ _ _ Hrun) as (i & Hidx & Hlt & -> & ->).
  exists i. rewrite split_relocated.
  split; [exact Hidx|]. split; [by apply list_index_Return in Hidx as [? _]|].
  split; [reflexivity|]. split; [by apply list_lookup_insert_eq|].
  split; [apply length_insert|reflexivity].
Qed.

Lemma relocate_replaces_partition_witness :
  exists i,
    list_index "objects"
      (split "/" "/srv/node/sda/objects/7/abc/0f/1380.data") = Return i /\
    split "/" "/srv/node/sda/objects/12/abc/0f/1380.data" !! (i + 1)%nat
      = Some (str 12).
Proof.
  destruct (relocate_replaces_partition "objects"
              "/srv/node/sda/objects/7/abc/0f/1380.data" 12
              "/srv/node/sda/objects/12/abc/0f"
              "/srv/node/sda/objects/12/abc/0f/1380.data" eq_refl)
    as (i & Hidx & _ & _ & Hpart & _).
  exists i. split; [exact Hidx | exact Hpart].
Defined.

(** X13: when [relocate] fails.  It raises [ValueError] exactly when no
    segment of the path is the kind directory, [IndexError] exactly when
    the first segment equal to the kind directory is the last segment of
    the path, and nothing else. *)
Theorem relocate_outcomes (kind oldname : string) (new_part : Z) :
  (relocate kind oldname new_part = Raise ValueError <->
   ~ In kind (split "/" oldname)) /\
  (relocate kind oldname new_part = Raise IndexError <->
   list_index kind (split "/" oldname)
   = Return (length (split "/" oldname) - 1)%nat) /\
  (forall e, relocate kind oldname new_part = Raise e ->
             e = ValueError \/ e = IndexError).
Proof.
  unfold relocate, list_setitem.
  destruct (list_index kind (split "/" oldname)) as [i|e] eqn:Eidx; simpl.
  - destruct (list_index_Return _ _ _ Eidx) as [Hi _].
    pose proof (lookup_lt_Some _ _ _ Hi) as Hlt.
    destruct (Nat.ltb_spec (i + 1) (length (split "/" oldname))); simpl.
    + split; [split; [discriminate|]|split; [split|]].
      * intros Hnot. exfalso. apply Hnot.
        apply list_elem_of_In, list_elem_of_lookup. by exists i.
      * discriminate.
      * intros [= ->]. lia.
      * discriminate.
    + split; [split; [discriminate|]|split; [split|]].
      * intros Hnot. exfalso. apply Hnot.
        apply list_elem_of_In, list_elem_of_lookup. by exists i.
      * intros _. f_equal. lia.
      * reflexivity.
      * intros e [= <-]. by right.
  - destruct (list_index_Raise _ _ _ Eidx) as [-> Hnot].
    split; [split; [by intros _|reflexivity]|].
    split; [split; discriminate|]. intros e [= <-]. by left.
Qed.

Lemma relocate_outcomes_witness :
  relocate "objects" "/srv/node/sda/1380.data" 12 = Raise ValueError.
Proof.
  apply (proj1 (relocate_outcomes "objects" "/srv/node/sda/1380.data" 12)).
  simpl. intuition discriminate.
Defined.

(** X14: the plan is idempotent.  Relocating the new path to the same
    partition gives the same directory and the same path again, so a
    second pass over a moved file plans a move onto itself. *)
Theorem relocate_idempotent (kind oldname : string) (new_part : Z)
    (newdir newname : string) :
  relocate kind oldname new_part = Return (newdir, newname) ->
  relocate kind newname new_part = Return (newdir, newname).
Proof.
  intros Hrun.
  destruct (relocate_returns _ _ _ _ _ Hrun) as (i & Hidx & Hlt & -> & ->).
  unfold relocate. rewrite split_relocated.
  rewrite (list_index_insert_after _ _ _ _ _ Hidx) by lia. simpl obind.
  unfold list_setitem. rewrite length_insert.
  destruct (Nat.ltb_spec (i + 1) (length (split "/" oldname))); [|lia].
  simpl obind. by rewrite list_insert_insert_eq.
Qed.

Lemma relocate_idempotent_witness :
  relocate "objects" "/srv/node/sda/objects/12/abc/0f/1380.data" 12
  = Return ("/srv/node/sda/objects/12/abc/0f",
            "/srv/node/sda/objects/12/abc/0f/1380.data").
Proof.
  apply (relocate_idempotent "objects"
           "/srv/node/sda/objects/7/abc/0f/1380.data" 12). reflexivity.
Defined.

(** ** The shape of the plan *)

Lemma mv_sources_records (bs : list record) :
  mv_sources (flat_map record_lines bs) = map record_source bs.
Proof.
  induction bs as [|[[[entity newdir] oldname] newname] bs IH];
    [reflexivity|].
  simpl. by rewrite IH.
Qed.

Lemma records_pret : prints_records (pret tt) [].
Proof.
  intros out. exists [], (Return tt). simpl. rewrite app_nil_r.
  by repeat split.
Qed.

Lemma records_seq (c1 c2 : prog (list line) unit) (s1 s2 : list string) :
  prints_records c1 s1 -> prints_records c2 s2 ->
  prints_records (c1;; c2)%prog (s1 ++ s2).
Proof.
  intros H1 H2 out. destruct (H1 out) as (b1 & res1 & Hrun1 & Hrel1 & Hsrc1).
  destruct res1 as [[]|e].
  - destruct (H2 (out ++ flat_map record_lines b1))
      as (b2 & res2 & Hrun2 & Hrel2 & Hsrc2).
    exists (b1 ++ b2), res2. split; [|split].
    + rewrite (pbind_return _ _ _ _ _ Hrun1), Hrun2.
      by rewrite flat_map_app, app_assoc.
    + by apply Forall_app.
    + intros Hres. by rewrite map_app, Hsrc1, Hsrc2.
  - exists b1, (Raise e). split; [|split].
    + by rewrite (pbind_raise _ _ _ _ _ Hrun1).
    + exact Hrel1.
    + discriminate.
Qed.

Section Records.

Variable W : world.
Variable ring : hashring.
Variable opts : options.

Lemma records_object_branch (oldname : string) :
  prints_records (object_branch W ring opts oldname)
    (if objects opts && ext_in oldname ["data"; "ts"] then [oldname] else []).
Proof.
  intros out. rewrite object_branch_run.
  destruct (objects opts && _).
  - destruct (get_acc_cont_obj W oldname) as [[[acc cont] obj]|e].
    + destruct (relocate _ _ _) as [[newdir newname]|e] eqn:Erel.
      * exists [(acc +:+ "/" +:+ cont +:+ "/" +:+ obj, newdir, oldname, newname)],
          (Return tt).
        split; [reflexivity|]. split; [|reflexivity].
        constructor; [|constructor]. eexists _, _. exact Erel.
      * exists [], (Raise e). simpl. rewrite app_nil_r. by repeat split.
    + exists [], (Raise e). simpl. rewrite app_nil_r. by repeat split.
  - exists [], (Return tt). simpl. rewrite app_nil_r. by repeat split.
Qed.

Lemma records_container_branch (oldname : string) :
  prints_records (container_branch W ring opts oldname)
    (if containers opts && ext_in oldname ["db"] && contains "containers" oldname
     then [oldname] else []).
Proof.
  intros out. rewrite container_branch_run.
  destruct (_ && _).
  - destruct (ContainerBroker_get_info W oldname) as [[acc cont]|e].
    + destruct (relocate _ _ _) as [[newdir newname]|e] eqn:Erel.
      * exists [(acc +:+ "/" +:+ cont, newdir, oldname, newname)], (Return tt).
        split; [reflexivity|]. split; [|reflexivity].
        constructor; [|constructor]. eexists _, _. exact Erel.
      * exists [], (Raise e). simpl. rewrite app_nil_r. by repeat split.
    + exists [], (Raise e). simpl. rewrite app_nil_r. by repeat split.
  - exists [], (Return tt). simpl. rewrite app_nil_r. by repeat split.
Qed.

Lemma records_account_branch (oldname : string) :
  prints_records (account_branch W ring opts oldname)
    (if accounts opts && ext_in oldname ["db"] && contains "accounts" oldname
     then [oldname] else []).
Proof.
  intros out. rewrite account_branch_run.
  destruct (_ && _).
  - destruct (AccountBroker_get_info W oldname) as [acc|e].
    + destruct (relocate _ _ _) as [[newdir newname]|e] eqn:Erel.
      * exists [(acc, newdir, oldname, newname)], (Return tt).
        split; [reflexivity|]. split; [|reflexivity].
        constructor; [|constructor]. eexists _, _. exact Erel.
      * exists [], (Raise e). simpl. rewrite app_nil_r. by repeat split.
    + exists [], (Raise e). simpl. rewrite app_nil_r. by repeat split.
  - exists [], (Return tt). simpl. rewrite app_nil_r. by repeat split.
Qed.

Lemma records_visit_file (pe : nat) (root filename : string) :
  prints_records (visit_file W ring opts pe root filename)
    (move_slots opts (os_path_join root filename)).
Proof.
  unfold visit_file, move_slots.
  apply records_seq; [apply records_object_branch|].
  apply records_seq; [apply records_container_branch
                     |apply records_account_branch].
Qed.

Lemma records_visit_files (pe : nat) (root : string) (files : list string) :
  prints_records (visit_files W ring opts pe root files)
    (flat_map (move_slots opts) (map (os_path_join root) files)).
Proof.
  induction files as [|f files IH]; simpl.
  - apply records_pret.
  - apply records_seq; [apply records_visit_file | exact IH].
Qed.

Lemma records_visit_dirs (pe : nat)
    (walk : list (string * list string * list string)) :
  prints_records (visit_dirs W ring opts pe walk)
    (flat_map (move_slots opts) (visited_files walk)).
Proof.
  induction walk as [|[[root dirs] files] walk IH]; simpl.
  - apply records_pret.
  - rewrite flat_map_app. apply records_seq; [|exact IH].
    destruct (negb (contains "quarantined" root)).
    + apply records_visit_files.
    + apply records_pret.
Qed.

End Records.

Lemma records_find_all_files (W : world) (opts : options)
    (ringfile path : string) :
  prints_records (find_all_files W ringfile path opts)
    (flat_map (move_slots opts) (visited_files (os_walk W path))).
Proof.
  intros out. unfold find_all_files, pbind at 1, plift at 1.
  destruct (Ring W ringfile) as [rg|e].
  - apply records_visit_dirs.
  - exists [], (Raise e). simpl. rewrite app_nil_r. by repeat split.
Qed.

(** X15: the output is made of whole records.  Whatever the walk and
    however the pass ends, what [find_all_files] has printed is a sequence
    of four-line records (comment, mkdir, mv, blank), never a part of
    one, and in each record the directory and the destination are those
    [relocate] computes from the source of the move. *)
Theorem find_all_files_prints_whole_records (W : world)
    (ringfile path : string) (opts : options) (out : list line)
    (res : outcome unit) :
  find_all_files W ringfile path opts [] = (out, res) ->
  exists bs : list record,
    out = flat_map record_lines bs /\ Forall relocated bs.
Proof.
  intros Hrun.
  destruct (records_find_all_files W opts ringfile path [])
    as (bs & res' & Hrun' & Hrel & _).
  rewrite Hrun in Hrun'. injection Hrun' as -> _.
  by exists bs.
Qed.

Lemma find_all_files_prints_whole_records_witness :
  exists bs : list record,
    fst (find_all_files intact_world "object.ring.gz" "/srv/node"
           (mkOptions true false false) []) = flat_map record_lines bs /\
    Forall relocated bs.
Proof.
  apply (find_all_files_prints_whole_records intact_world "object.ring.gz"
           "/srv/node" (mkOptions true false false) _ (Return tt)).
  reflexivity.
Defined.

(** X16: a pass that ends without an exception has planned every selected
    file.  The sources of the printed moves are then exactly the visited
    files, in walk order, each once for every branch that takes it. *)
Theorem finished_pass_plans_every_selected_file (W : world)
    (ringfile path : string) (opts : options) (out : list line) :
  find_all_files W ringfile path opts [] = (out, Return tt) ->
  mv_sources out
  = flat_map (move_slots opts) (visited_files (os_walk W path)).
Proof.
  intros Hrun.
  destruct (records_find_all_files W opts ringfile path [])
    as (bs & res' & Hrun' & _ & Hsrc).
  rewrite Hrun in Hrun'. injection Hrun' as -> <-.
  rewrite mv_sources_records. by apply Hsrc.
Qed.

Lemma finished_pass_plans_every_selected_file_witness :
  mv_sources
    (fst (find_all_files intact_world "object.ring.gz" "/srv/node"
            (mkOptions true false false) []))
  = ["/srv/node/sda/objects/7/abc/0f/1380.data"].
Proof.
  apply (finished_pass_plans_every_selected_file intact_world
           "object.ring.gz" "/srv/node" (mkOptions true false false)).
  reflexivity.
Defined.

(** ** Which files the planner looks at *)

(** X17: the planner only moves files of a selected kind.  The source of
    every printed move is a file that one of the selected branches takes:
    an object file (extension [data] or [ts]) with objects selected, or a
    database file whose path contains [containers] (or [accounts]) with
    containers (or accounts) selected. *)
Theorem moved_files_are_selected (W : world) (ringfile path : string)
    (opts : options) (out : list line) (res : outcome unit)
    (oldname : string) :
  find_all_files W ringfile path opts [] = (out, res) ->
  In oldname (mv_sources out) ->
  (objects opts = true /\ ext_in oldname ["data"; "ts"] = true) \/
  (containers opts = true /\ ext_in oldname ["db"] = true /\
   contains "containers" oldname = true) \/
  (accounts opts = true /\ ext_in oldname ["db"] = true /\
   contains "accounts" oldname = true).
Proof.
  intros Hrun Hin.
  destruct (moves_find_all_files W opts ringfile path [])
    as (lines & res' & Hrun' & Hsub).
  rewrite Hrun in Hrun'. injection Hrun' as -> _.
  apply list_elem_of_In in Hin.
  pose proof (elem_of_sublist _ _ _ Hin Hsub) as Hslot.
  apply list_elem_of_In, in_flat_map in Hslot as (o & _ & Hown).
  pose proof (move_slots_own _ _ _ Hown) as ->.
  unfold move_slots in Hown. rewrite !in_app_iff in Hown.
  destruct Hown as [H|[H|H]].
  - left. destruct (objects opts && _) eqn:E; [|destruct H].
    by apply andb_true_iff in E.
  - right; left. destruct (_ && _) eqn:E; [|destruct H].
    apply andb_true_iff in E as [E ?]. apply andb_true_iff in E as [? ?].
    by repeat split.
  - right; right. destruct (_ && _) eqn:E; [|destruct H].
    apply andb_true_iff in E as [E ?]. apply andb_true_iff in E as [? ?].
    by repeat split.
Qed.

Lemma moved_files_are_selected_witness :
  (objects (mkOptions true false false) = true /\
   ext_in "/srv/node/sda/objects/7/abc/0f/1380.data" ["data"; "ts"] = true) \/
  (containers (mkOptions true false false) = true /\
   ext_in "/srv/node/sda/objects/7/abc/0f/1380.data" ["db"] = true /\
   contains "containers" "/srv/node/sda/objects/7/abc/0f/1380.data" = true) \/
  (accounts (mkOptions true false false) = true /\
   ext_in "/srv/node/sda/objects/7/abc/0f/1380.data" ["db"] = true /\
   contains "accounts" "/srv/node/sda/objects/7/abc/0f/1380.data" = true).
Proof.
  eapply (moved_files_are_selected intact_world "object.ring.gz" "/srv/node"
            (mkOptions true false false)).
  - reflexivity.
  - simpl. left. reflexivity.
Defined.

Section Agreement.

Variables W W' : world.
Variable ring : hashring.
Variable opts : options.

Hypothesis same_objects :
  objects opts = true ->
  (forall f, fs_open W f = fs_open W' f) /\
  (forall s, pickle_loads W s = pickle_loads W' s).
Hypothesis same_containers :
  containers opts = true ->
  forall db, ContainerBroker_get_info W db = ContainerBroker_get_info W' db.
Hypothesis same_accounts :
  accounts opts = true ->
  forall db, AccountBroker_get_info W db = AccountBroker_get_info W' db.

Lemma agree_visit_file (pe : nat) (root filename : string) (out : list line) :
  visit_file W ring opts pe root filename out
  = visit_file W' ring opts pe root filename out.
Proof.
  rewrite !visit_file_run.
  assert (forall o out0, object_branch W ring opts o out0
                         = object_branch W' ring opts o out0) as Hobj.
  { intros o out0. rewrite !object_branch_run.
    destruct (objects opts) eqn:E; [|reflexivity].
    destruct (same_objects eq_refl) as [Hopen Hpickle].
    unfold get_acc_cont_obj. rewrite Hopen.
    destruct (fs_open W' o); [|reflexivity]. by rewrite Hpickle. }
  assert (forall o out0, container_branch W ring opts o out0
                         = container_branch W' ring opts o out0) as Hcont.
  { intros o out0. rewrite !container_branch_run.
    destruct (containers opts) eqn:E; [|reflexivity].
    by rewrite (same_containers eq_refl). }
  assert (forall o out0, account_branch W ring opts o out0
                         = account_branch W' ring opts o out0) as Hacc.
  { intros o out0. rewrite !account_branch_run.
    destruct (accounts opts) eqn:E; [|reflexivity].
    by rewrite (same_accounts eq_refl). }
  unfold pbind. rewrite Hobj.
  destruct (object_branch W' ring opts _ out) as [out1 [[]|e]]; [|reflexivity].
  rewrite Hcont.
  destruct (container_branch W' ring opts _ out1) as [out2 [[]|e]];
    [|reflexivity].
  apply Hacc.
Qed.

Lemma agree_visit_files (pe : nat) (root : string) (files : list string)
    (out : list line) :
  visit_files W ring opts pe root files out
  = visit_files W' ring opts pe root files out.
Proof.
  revert out. induction files as [|f files IH]; intros out; [reflexivity|].
  simpl. unfold pbind. rewrite agree_visit_file.
  destruct (visit_file W' ring opts pe root f out) as [out1 [[]|e]];
    [apply IH|reflexivity].
Qed.

Lemma agree_visit_dirs (pe : nat)
    (walk : list (string * list string * list string)) (out : list line) :
  visit_dirs W ring opts pe walk out = visit_dirs W' ring opts pe walk out.
Proof.
  revert out. induction walk as [|[[root dirs] files] walk IH]; intros out;
    [reflexivity|].
  simpl. unfold pbind. destruct (negb (contains "quarantined" root)).
  - rewrite agree_visit_files.
    destruct (visit_files W' ring opts pe root files out) as [out1 [[]|e]];
      [apply IH|reflexivity].
  - unfold pret. apply IH.
Qed.

End Agreement.

(** X18: collaborators of kinds that are not selected are never
    consulted.  Two worlds with the same ring loader and the same walk
    give the same output and the same outcome as soon as they agree on
    the collaborators of the selected kinds: the file metadata and the
    unpickler for objects, the container broker for containers, the
    account broker for accounts. *)
Theorem unselected_kinds_not_consulted (W W' : world) (ringfile path : string)
    (opts : options) (out : list line) :
  Ring W ringfile = Ring W' ringfile ->
  os_walk W path = os_walk W' path ->
  (objects opts = true ->
   (forall f, fs_open W f = fs_open W' f) /\
   (forall s, pickle_loads W s = pickle_loads W' s)) ->
  (containers opts = true ->
   forall db, ContainerBroker_get_info W db = ContainerBroker_get_info W' db) ->
  (accounts opts = true ->
   forall db, AccountBroker_get_info W db = AccountBroker_get_info W' db) ->
  find_all_files W ringfile path opts out
  = find_all_files W' ringfile path opts out.
Proof.
  intros Hring Hwalk Hobj Hcont Hacc.
  unfold find_all_files. rewrite Hring, Hwalk.
  apply pbind_ext. intros ring out'. by apply agree_visit_dirs.
Qed.

Lemma unselected_kinds_not_consulted_witness :
  find_all_files settled_world "object.ring.gz" "/srv/node"
    (mkOptions true false false) []
  = find_all_files other_brokers_world "object.ring.gz" "/srv/node"
      (mkOptions true false false) [].
Proof.
  apply (unselected_kinds_not_consulted settled_world other_brokers_world);
    try reflexivity; try discriminate.
  intros _. split; reflexivity.
Defined.

(** X19: the quarantine test is a substring test on the directory path.
    A directory whose path contains the text [quarantined] anywhere, also
    inside a longer name, is left out of the plan: the pass gives what it
    gives on the walk without that directory. *)
Theorem quarantined_text_skips_directory (W : world) (ringfile path : string)
    (opts : options)
    (pre post : list (string * list string * list string))
    (before after : string) (dirs files : list string) (out : list line) :
  os_walk W path
  = pre ++ (before +:+ "quarantined" +:+ after, dirs, files) :: post ->
  find_all_files W ringfile path opts out =
  (do ring <- plift (Ring W ringfile);
   visit_dirs W ring opts (length (split "/" (strip_slash path)))
     (pre ++ post))%prog out.
Proof.
  intros Hwalk. unfold find_all_files. rewrite Hwalk.
  apply pbind_ext. intros ring out'.
  rewrite !visit_dirs_app. apply pbind_ext. intros _ out''.
  cbn [visit_dirs]. rewrite contains_append. reflexivity.
Qed.

Lemma quarantined_text_skips_directory_witness :
  find_all_files kept_aside_world "object.ring.gz" "/srv/node"
    (mkOptions true false false) []
  = ([Comment "AUTH_a/c/o"; Mkdir "/srv/node/sdb/objects/12/abc/0f";
      Mv "/srv/node/sdb/objects/7/abc/0f/1381.data"
         "/srv/node/sdb/objects/12/abc/0f/1381.data"; Blank], Return tt).
Proof.
  rewrite (quarantined_text_skips_directory kept_aside_world "object.ring.gz"
             "/srv/node" (mkOptions true false false) []
             [("/srv/node/sdb/objects/7/abc/0f", [], ["1381.data"])]
             "/srv/node/sda/not" "/objects/7/abc/0f" [] ["1380.data"] []).
  - reflexivity.
  - reflexivity.
Defined.

(** X20: a selected file without its kind directory ends the pass.  When
    a branch takes a file and recovers its identity, but no segment of
    the path is the kind directory ([objects], [containers] or
    [accounts]), the branch raises [ValueError] and prints nothing; for a
    database file this happens when the path only contains the kind name
    inside a longer segment. *)
Theorem missing_kind_directory_raises (W : world) (ring : hashring)
    (opts : options) (oldname : string) (out : list line) :
  (objects opts = true ->
   ext_in oldname ["data"; "ts"] = true ->
   (exists ident, get_acc_cont_obj W oldname = Return ident) ->
   ~ In "objects" (split "/" oldname) ->
   object_branch W ring opts oldname out = (out, Raise ValueError)) /\
  (containers opts = true ->
   ext_in oldname ["db"] = true ->
   contains "containers" oldname = true ->
   (exists info, ContainerBroker_get_info W oldname = Return info) ->
   ~ In "containers" (split "/" oldname) ->
   container_branch W ring opts oldname out = (out, Raise ValueError)) /\
  (accounts opts = true ->
   ext_in oldname ["db"] = true ->
   contains "accounts" oldname = true ->
   (exists acc, AccountBroker_get_info W oldname = Return acc) ->
   ~ In "accounts" (split "/" oldname) ->
   account_branch W ring opts oldname out = (out, Raise ValueError)).
Proof.
  assert (forall kind p, ~ In kind (split "/" oldname) ->
                         relocate kind oldname p = Raise ValueError) as Hrel.
  { intros kind p Hnot. unfold relocate.
    destruct (list_index kind (split "/" oldname)) as [i|e] eqn:E.
    - exfalso. apply Hnot. apply list_index_Return in E as [Hi _].
      apply list_elem_of_In, list_elem_of_lookup. by exists i.
    - apply list_index_Raise in E as [-> _]. reflexivity. }
  repeat split.
  - intros Hopt Hext [[[acc cont] obj] Hid] Hnot.
    by rewrite object_branch_run, Hopt, Hext, Hid, Hrel.
  - intros Hopt Hext Hsub [[acc cont] Hid] Hnot.
    by rewrite container_branch_run, Hopt, Hext, Hsub, Hid, Hrel.
  - intros Hopt Hext Hsub [acc Hid] Hnot.
    by rewrite account_branch_run, Hopt, Hext, Hsub, Hid, Hrel.
Qed.

Lemma missing_kind_directory_raises_witness :
  container_branch other_brokers_world (fun _ _ _ => 9)
    (mkOptions false true false) "/srv/node/sdb/mycontainers/5/abc/0f/0f.db" []
  = ([], Raise ValueError).
Proof.
  apply (proj1 (proj2 (missing_kind_directory_raises other_brokers_world
                         (fun _ _ _ => 9) (mkOptions false true false)
                         "/srv/node/sdb/mycontainers/5/abc/0f/0f.db" [])));
    try reflexivity.
  - eexists. reflexivity.
  - simpl. intuition discriminate.
Defined.

(** * Properties of the command line *)

(** ** The [--show] branch *)

Lemma show_devices_complete (replicas : list (list Z)) (part : nat)
    (devices : list string) :
  (forall row, In row replicas -> (part < length row)%nat) ->
  show_devices replicas part devices
  = Return (devices ++ map (fun row => str (default 0 (row !! part))) replicas).
Proof.
  revert devices. induction replicas as [|row rest IH]; intros devices Hlen.
  - simpl. by rewrite app_nil_r.
  - simpl. unfold row_getitem.
    destruct (lookup_lt_is_Some_2 row part (Hlen row (or_introl eq_refl)))
      as [d Hd].
    rewrite Hd. simpl. rewrite IH by (intros row' Hin; apply Hlen; by right).
    by rewrite <- app_assoc.
Qed.

Lemma show_devices_short (replicas : list (list Z)) (part : nat)
    (devices : list string) (row : list Z) :
  In row replicas -> (length row <= part)%nat ->
  show_devices replicas part devices = Raise IndexError.
Proof.
  revert devices. induction replicas as [|row0 rest IH]; intros devices;
    [intros []|].
  intros [->|Hin] Hshort; simpl; unfold row_getitem.
  - by rewrite (lookup_ge_None_2 _ _ Hshort).
  - destruct (row0 !! part); [|reflexivity]. simpl. by apply IH.
Qed.

Lemma show_devices_twice (replicas : list (list Z)) (p : nat)
    (devices : list string) :
  show_devices (map (flat_map (fun d => [d; d])) replicas) (2 * p) devices
  = show_devices replicas p devices /\
  show_devices (map (flat_map (fun d => [d; d])) replicas) (2 * p + 1) devices
  = show_devices replicas p devices.
Proof.
  revert devices. induction replicas as [|row rest IH]; intros devices;
    [by split|].
  cbn [show_devices map]. unfold row_getitem.
  destruct (twice_lookup row p) as [-> ->].
  destruct (row !! p); cbn [obind]; [apply IH|by split].
Qed.

Lemma print_text_run (text : string) (m : machine) :
  print_text text m = (set_stdout (stdout m ++ [text]) m, Return tt).
Proof. reflexivity. Qed.

Lemma set_stdout_set_stdout (a b : list string) (m : machine) :
  set_stdout a (set_stdout b m) = set_stdout a m.
Proof. reflexivity. Qed.

(** The partition loop on partitions that every row covers. *)
Lemma show_partitions_complete (r : ring) (replicas : list (list Z))
    (range : list nat) (m : machine) :
  _replica2part2dev r = Some replicas ->
  (forall part row, In part range -> In row replicas ->
                    (part < length row)%nat) ->
  show_partitions r range m
  = (set_stdout
       (stdout m ++
        map (fun part =>
               partition_line part
                 (map (fun row => str (default 0 (row !! part))) replicas))
            range) m,
     Return tt).
Proof.
  intros Hrep. revert m. induction range as [|part range IH]; intros m Hlen.
  - simpl. rewrite app_nil_r. by destruct m.
  - cbn [show_partitions]. rewrite Hrep.
    rewrite (pbind_return _ _ m m replicas) by reflexivity.
    rewrite (pbind_return _ _ m m
               (map (fun row => str (default 0 (row !! part))) replicas)).
    2:{ unfold plift. rewrite show_devices_complete; [reflexivity|].
        intros row Hin. apply Hlen; [by left|exact Hin]. }
    rewrite (pbind_return _ _ _ _ _ (print_text_run _ m)).
    rewrite IH by (intros p row Hp Hrow; apply Hlen; [by right|exact Hrow]).
    simpl. by rewrite <- app_assoc.
Qed.

Lemma show_ring_run (r : ring) (m : machine) :
  show_ring r m
  = show_partitions r (py_range (parts r))
      (set_stdout (stdout m ++ ["Replica:" +:+ String "009" EmptyString +:+ "0 1 2";
                                str_mul "-" 25]) m).
Proof.
  unfold show_ring.
  rewrite (pbind_return _ _ _ _ _ (print_text_run _ m)).
  rewrite (pbind_return _ _ _ _ _ (print_text_run _ _)).
  simpl. by rewrite <- app_assoc.
Qed.

(** X21: on a builder whose rows all cover the partition count, the
    [--show] branch never fails: it prints the two header lines and then
    one line per partition, in order, that lists for every replica, in
    replica order, the device of that partition.  The header names three
    replicas whatever the number of rows. *)
Theorem show_ring_lists_every_partition (r : ring)
    (replicas : list (list Z)) (m : machine) :
  _replica2part2dev r = Some replicas ->
  (forall row, In row replicas -> (Z.to_nat (parts r) <= length row)%nat) ->
  show_ring r m
  = (set_stdout
       (stdout m ++
        ["Replica:" +:+ String "009" EmptyString +:+ "0 1 2";
         "-------------------------"] ++
        map (fun part =>
               partition_line part
                 (map (fun row => str (default 0 (row !! part))) replicas))
            (seq 0 (Z.to_nat (parts r)))) m,
     Return tt).
Proof.
  intros Hrep Hlen. rewrite show_ring_run.
  rewrite (show_partitions_complete r replicas); [|exact Hrep|].
  - simpl. by rewrite <- app_assoc.
  - intros part row Hpart Hrow. unfold py_range in Hpart.
    apply in_seq in Hpart. specialize (Hlen row Hrow). lia.
Qed.

Lemma show_ring_lists_every_partition_witness :
  stdout (fst (show_ring sample_ring sample_machine))
  = ["Replica:" +:+ String "009" EmptyString +:+ "0 1 2";
     "-------------------------";
     partition_line 0 ["0"; "2"]; partition_line 1 ["2"; "0"];
     partition_line 2 ["2"; "0"]; partition_line 3 ["0"; "2"]].
Proof.
  rewrite (show_ring_lists_every_partition sample_ring
             [[0; 2; 2; 0]; [2; 0; 0; 2]] sample_machine eq_refl).
  - reflexivity.
  - intros row [<-|[<-|[]]]; simpl; lia.
Defined.

Lemma show_partitions_app (r : ring) (a b : list nat) (m : machine) :
  show_partitions r (a ++ b) m
  = (show_partitions r a;; show_partitions r b)%prog m.
Proof.
  revert m. induction a as [|part a IH]; intros m; [reflexivity|].
  cbn [show_partitions app]. rewrite !pbind_assoc. apply pbind_ext.
  intros replicas m1. rewrite !pbind_assoc. apply pbind_ext.
  intros devices m2. rewrite !pbind_assoc. apply pbind_ext.
  intros _ m3. apply IH.
Qed.

(** X22: what the [--show] branch does without an assignment.  With a
    partition count that is not positive it prints the two header lines
    and returns, whatever the table holds; with a positive partition
    count and the replica assignment unset it prints the two header lines
    and raises [TypeError]. *)
Theorem show_ring_without_assignment (r : ring) (m : machine) :
  (parts r <= 0 ->
   show_ring r m
   = (set_stdout
        (stdout m ++ ["Replica:" +:+ String "009" EmptyString +:+ "0 1 2";
                      "-------------------------"]) m, Return tt)) /\
  (0 < parts r -> _replica2part2dev r = None ->
   show_ring r m
   = (set_stdout
        (stdout m ++ ["Replica:" +:+ String "009" EmptyString +:+ "0 1 2";
                      "-------------------------"]) m, Raise TypeError)).
Proof.
  split.
  - intros Hparts. rewrite show_ring_run. unfold py_range.
    replace (Z.to_nat (parts r)) with O by lia. reflexivity.
  - intros Hparts Hrep. rewrite show_ring_run. unfold py_range.
    destruct (Z.to_nat (parts r)) as [|n] eqn:En; [lia|].
    cbn [seq show_partitions]. rewrite Hrep. reflexivity.
Qed.

Lemma show_ring_without_assignment_witness :
  show_ring unassigned_ring sample_machine
  = (set_stdout ["Replica:" +:+ String "009" EmptyString +:+ "0 1 2";
                 "-------------------------"] sample_machine,
     Raise TypeError).
Proof.
  apply (proj2 (show_ring_without_assignment unassigned_ring sample_machine));
    reflexivity.
Defined.

(** X23: a row that is shorter than the partition count ends the
    [--show] branch with [IndexError].  When the shortest row has [k]
    entries and the partition count is larger, the branch prints the
    header and the lines of the partitions below [k] and then raises
    [IndexError]. *)
Theorem show_ring_short_row (r : ring) (replicas : list (list Z))
    (k : nat) (m : machine) :
  _replica2part2dev r = Some replicas ->
  (forall row, In row replicas -> (k <= length row)%nat) ->
  (exists row, In row replicas /\ length row = k) ->
  (k < Z.to_nat (parts r))%nat ->
  show_ring r m
  = (set_stdout
       (stdout m ++
        ["Replica:" +:+ String "009" EmptyString +:+ "0 1 2";
         "-------------------------"] ++
        map (fun part =>
               partition_line part
                 (map (fun row => str (default 0 (row !! part))) replicas))
            (seq 0 k)) m,
     Raise IndexError).
Proof.
  intros Hrep Hlen (short & Hin & Hshort) Hk. rewrite show_ring_run.
  unfold py_range.
  replace (Z.to_nat (parts r)) with (k + S (Z.to_nat (parts r) - S k))%nat
    by lia.
  rewrite seq_app, show_partitions_app.
  assert (forall part row, In part (seq 0 k) -> In row replicas ->
                           (part < length row)%nat) as Hbelow.
  { intros part row Hpart Hrow. apply in_seq in Hpart.
    specialize (Hlen row Hrow). lia. }
  rewrite (pbind_return _ _ _ _ tt
             (show_partitions_complete r replicas (seq 0 k) _ Hrep Hbelow)).
  cbn [seq show_partitions]. rewrite Hrep.
  rewrite (pbind_return _ _ _ _ replicas) by reflexivity.
  apply pbind_raise. unfold plift.
  rewrite (show_devices_short replicas (0 + k) [] short Hin) by lia.
  simpl. by rewrite <- app_assoc.
Qed.

Lemma show_ring_short_row_witness :
  show_ring (set_replica2part2dev (Some [[0; 2; 2; 0]; [2; 0]]) sample_ring)
    sample_machine
  = (set_stdout ["Replica:" +:+ String "009" EmptyString +:+ "0 1 2";
                 "-------------------------";
                 partition_line 0 ["0"; "2"]; partition_line 1 ["2"; "0"]]
       sample_machine,
     Raise IndexError).
Proof.
  apply (show_ring_short_row
           (set_replica2part2dev (Some [[0; 2; 2; 0]; [2; 0]]) sample_ring)
           [[0; 2; 2; 0]; [2; 0]] 2 sample_machine eq_refl).
  - intros row [<-|[<-|[]]]; simpl; lia.
  - exists [2; 0]. split; [simpl; tauto | reflexivity].
  - simpl. lia.
Defined.

(** X24: after [ring_shift_power], the devices the [--show] branch lists
    for the partitions [2p] and [2p+1] are the devices it listed for
    partition [p] before, also where it fails. *)
Theorem show_devices_after_shift (r r' : ring)
    (replicas replicas' : list (list Z)) (p : nat) :
  ring_shift_power r = (r', Return r') ->
  _replica2part2dev r = Some replicas ->
  _replica2part2dev r' = Some replicas' ->
  show_devices replicas' (2 * p) [] = show_devices replicas p [] /\
  show_devices replicas' (2 * p + 1) [] = show_devices replicas p [].
Proof.
  intros Hrun Hrep Hrep'.
  destruct (ring_shift_power_returns _ _ _ Hrun)
    as (replicas0 & ds & moves & Hrep0 & _ & _ & _ & _ & ->).
  rewrite Hrep in Hrep0. injection Hrep0 as <-.
  simpl in Hrep'. injection Hrep' as <-.
  apply show_devices_twice.
Qed.

Lemma show_devices_after_shift_witness :
  show_devices [[0; 0; 2; 2; 2; 2; 0; 0]; [2; 2; 0; 0; 0; 0; 2; 2]] 3 []
  = show_devices [[0; 2; 2; 0]; [2; 0; 0; 2]] 1 [].
Proof.
  apply (proj2 (show_devices_after_shift sample_ring
                  (fst (ring_shift_power sample_ring))
                  [[0; 2; 2; 0]; [2; 0; 0; 2]]
                  [[0; 0; 2; 2; 2; 2; 0; 0]; [2; 2; 0; 0; 0; 0; 2; 2]] 1
                  eq_refl eq_refl eq_refl)).
Defined.

(** ** [main] and the builder files *)

(** The ways through the [--reset] and [--increase] branches, step by
    step as the source takes them. *)
Lemma transform_file_run (h : host) (transform : prog ring ring)
    (args : list string) (m : machine) :
  transform_file h transform args m =
    match args !! 0%nat with
    | None => (m, Raise IndexError)
    | Some src =>
        match files m src with
        | None => (m, Raise IOError)
        | Some _ =>
            match args !! 1%nat with
            | None => (m, Raise IndexError)
            | Some dst =>
                if can_write h dst then
                  match files (set_file dst EmptyString m) src with
                  | None => (set_file dst EmptyString m, Raise IOError)
                  | Some content =>
                      match pickle_load h content with
                      | Raise e => (set_file dst EmptyString m, Raise e)
                      | Return src_ring =>
                          match snd (transform src_ring) with
                          | Raise e => (set_file dst EmptyString m, Raise e)
                          | Return dst_ring =>
                              (set_file dst (pickle_dump h dst_ring)
                                 (set_file dst EmptyString m), Return tt)
                          end
                      end
                  end
                else (m, Raise IOError)
            end
        end
    end.
Proof.
  unfold transform_file, pbind, plift, list_getitem, open_read, open_write,
    read_file, write_file, pmodify.
  destruct (args !! 0%nat) as [src|]; [|reflexivity].
  destruct (files m src); [|reflexivity].
  destruct (args !! 1%nat) as [dst|]; [|reflexivity].
  destruct (can_write h dst); [|reflexivity].
  destruct (files (set_file dst EmptyString m) src) as [content|];
    [|reflexivity].
  destruct (pickle_load h content) as [src_ring|e]; [|reflexivity].
  destruct (snd (transform src_ring)); reflexivity.
Qed.

Lemma files_set_file_ne (name content p : string) (m : machine) :
  p <> name -> files (set_file name content m) p = files m p.
Proof.
  intros Hne. simpl. by destruct (String.eqb_spec p name).
Qed.

Lemma files_set_file_eq (name content : string) (m : machine) :
  files (set_file name content m) name = Some content.
Proof. simpl. by rewrite String.eqb_refl. Qed.

(** X25: a successful [--reset] or [--increase] run.  When the source
    file exists and unpickles, the destination is another path that can
    be written, and the transform returns, [main] returns; afterwards
    the destination holds the pickle of the transformed builder, every
    other file is as before, and nothing has been printed. *)
Theorem main_transform_writes_destination (h : host) (c : cli)
    (src dst : string) (rest : list string) (m : machine)
    (content : string) (src_ring final dst_ring : ring) :
  reset c = true \/ increase c = true ->
  files m src = Some content ->
  src <> dst ->
  can_write h dst = true ->
  pickle_load h content = Return src_ring ->
  (if reset c then ring_reset_partitions else ring_shift_power) src_ring
  = (final, Return dst_ring) ->
  exists m',
    main h c (src :: dst :: rest) m = (m', Return tt) /\
    files m' dst = Some (pickle_dump h dst_ring) /\
    (forall p, p <> dst -> files m' p = files m p) /\
    stdout m' = stdout m.
Proof.
  intros Hflag Hsrc Hne Hwrite Hload Hrun.
  assert (main h c (src :: dst :: rest) m
          = transform_file h
              (if reset c then ring_reset_partitions else ring_shift_power)
              (src :: dst :: rest) m) as ->.
  { unfold main. destruct (reset c); [reflexivity|].
    destruct Hflag as [? | ->]; [discriminate|reflexivity]. }
  rewrite transform_file_run. cbn [lookup list_lookup].
  rewrite Hsrc, Hwrite, (files_set_file_ne _ _ _ _ Hne), Hsrc, Hload, Hrun.
  cbn [snd]. eexists. split; [reflexivity|].
  split; [apply files_set_file_eq|]. split; [|reflexivity].
  intros p Hp. by rewrite !files_set_file_ne.
Qed.

Lemma main_transform_writes_destination_witness :
  exists m',
    main sample_host (mkCli false true false (mkOptions false false false))
      ["object.builder"; "new.builder"] sample_machine = (m', Return tt) /\
    files m' "new.builder" = Some "builder:8".
Proof.
  destruct (main_transform_writes_destination sample_host
              (mkCli false true false (mkOptions false false false))
              "object.builder" "new.builder" [] sample_machine "builder:4"
              sample_ring (fst (ring_shift_power sample_ring))
              (fst (ring_shift_power sample_ring)))
    as (m' & Hrun & Hdst & _); try reflexivity.
  - by right.
  - discriminate.
  - exists m'. split; [exact Hrun | exact Hdst].
Defined.

(** X26: a failed [--reset] or [--increase] run leaves an empty
    destination.  The destination is opened for writing before the source
    is unpickled; when the unpickling or the transform then raises,
    [main] raises the same exception and the destination file exists and
    is empty, whatever it held before; the other files are untouched. *)
Theorem main_transform_failure_empties_destination (h : host) (c : cli)
    (src dst : string) (rest : list string) (m : machine)
    (content : string) (e : pyexn) :
  reset c = true \/ increase c = true ->
  files m src = Some content ->
  src <> dst ->
  can_write h dst = true ->
  (pickle_load h content = Raise e \/
   exists src_ring,
     pickle_load h content = Return src_ring /\
     snd ((if reset c then ring_reset_partitions else ring_shift_power)
            src_ring) = Raise e) ->
  exists m',
    main h c (src :: dst :: rest) m = (m', Raise e) /\
    files m' dst = Some EmptyString /\
    (forall p, p <> dst -> files m' p = files m p).
Proof.
  intros Hflag Hsrc Hne Hwrite Hfail.
  assert (main h c (src :: dst :: rest) m
          = transform_file h
              (if reset c then ring_reset_partitions else ring_shift_power)
              (src :: dst :: rest) m) as ->.
  { unfold main. destruct (reset c); [reflexivity|].
    destruct Hflag as [? | ->]; [discriminate|reflexivity]. }
  rewrite transform_file_run. cbn [lookup list_lookup].
  rewrite Hsrc, Hwrite, (files_set_file_ne _ _ _ _ Hne), Hsrc.
  exists (set_file dst EmptyString m).
  split; [|split; [apply files_set_file_eq
                  |intros p Hp; by apply files_set_file_ne]].
  destruct Hfail as [->|(src_ring & -> & ->)]; reflexivity.
Qed.

Lemma main_transform_failure_empties_destination_witness :
  exists m',
    main sample_host (mkCli false true false (mkOptions false false false))
      ["reset.builder"; "new.builder"]
      (set_file "reset.builder" "builder:4:unassigned" sample_machine)
    = (m', Raise TypeError) /\
    files m' "new.builder" = Some EmptyString.
Proof.
  destruct (main_transform_failure_empties_destination sample_host
              (mkCli false true false (mkOptions false false false))
              "reset.builder" "new.builder" []
              (set_file "reset.builder" "builder:4:unassigned" sample_machine)
              "builder:4:unassigned" TypeError)
    as (m' & Hrun & Hdst & _); try reflexivity.
  - by right.
  - discriminate.
  - right. eexists. split; reflexivity.
  - exists m'. split; [exact Hrun | exact Hdst].
Defined.

(** X27: naming the same file as source and destination destroys it.
    The file is cut to length zero before it is read, so [main] unpickles
    the empty file: with an unpickler that refuses the empty file, as
    [pickle.load] does, [main] raises and the builder file is left
    empty. *)
Theorem main_transform_in_place_destroys_builder (h : host) (c : cli)
    (name : string) (rest : list string) (m : machine) (content : string)
    (e : pyexn) :
  reset c = true \/ increase c = true ->
  files m name = Some content ->
  can_write h name = true ->
  pickle_load h EmptyString = Raise e ->
  exists m',
    main h c (name :: name :: rest) m = (m', Raise e) /\
    files m' name = Some EmptyString.
Proof.
  intros Hflag Hsrc Hwrite Hload.
  assert (main h c (name :: name :: rest) m
          = transform_file h
              (if reset c then ring_reset_partitions else ring_shift_power)
              (name :: name :: rest) m) as ->.
  { unfold main. destruct (reset c); [reflexivity|].
    destruct Hflag as [? | ->]; [discriminate|reflexivity]. }
  rewrite transform_file_run. cbn [lookup list_lookup].
  rewrite Hsrc, Hwrite, files_set_file_eq, Hload.
  eexists. split; [reflexivity | apply files_set_file_eq].
Qed.

Lemma main_transform_in_place_destroys_builder_witness :
  exists m',
    main sample_host (mkCli true false false (mkOptions false false false))
      ["object.builder"; "object.builder"] sample_machine
    = (m', Raise EOFError) /\
    files m' "object.builder" = Some EmptyString.
Proof.
  apply (main_transform_in_place_destroys_builder sample_host
           (mkCli true false false (mkOptions false false false))
           "object.builder" [] sample_machine "builder:4" EOFError);
    try reflexivity.
  by left.
Defined.

Lemma show_partitions_files (r : ring) (range : list nat) (m : machine) :
  files (fst (show_partitions r range m)) = files m.
Proof.
  revert m. induction range as [|part range IH]; intros m; [reflexivity|].
  cbn [show_partitions]. unfold pbind at 1, plift at 1.
  destruct (py_iter (_replica2part2dev r)) as [replicas|e]; [|reflexivity].
  unfold pbind at 1, plift at 1.
  destruct (show_devices replicas part []) as [devices|e]; [|reflexivity].
  rewrite (pbind_return _ _ _ _ _ (print_text_run _ m)).
  by rewrite IH.
Qed.

Lemma show_file_files (h : host) (args : list string) (m : machine) :
  files (fst (show_file h args m)) = files m.
Proof.
  unfold show_file, pbind, plift, list_getitem, open_read, read_file.
  destruct (args !! 0%nat) as [src|]; [|reflexivity].
  destruct (files m src) as [content|] eqn:Esrc; [|reflexivity].
  cbv beta iota zeta. rewrite Esrc.
  destruct (pickle_load h content) as [src_ring|e]; [|reflexivity].
  by rewrite show_ring_run, show_partitions_files.
Qed.

Lemma plan_files (h : host) (c : cli) (args : list string) (m : machine) :
  files (fst (plan h c args m)) = files m.
Proof.
  unfold plan, pbind, plift, list_getitem.
  destruct (args !! 0%nat) as [ringfile|]; [|reflexivity].
  destruct (args !! 1%nat) as [path|]; [|reflexivity].
  by destruct (find_all_files _ _ _ _ _).
Qed.

Lemma transform_file_touches (h : host) (transform : prog ring ring)
    (args : list string) (m : machine) (p : string) :
  files (fst (transform_file h transform args m)) p <> files m p ->
  args !! 1%nat = Some p.
Proof.
  rewrite transform_file_run.
  destruct (args !! 0%nat) as [src|]; [|by intros []].
  destruct (files m src); [|by intros []].
  destruct (args !! 1%nat) as [dst|]; [|by intros []].
  destruct (can_write h dst); [|by intros []].
  intros Hchanged. f_equal.
  destruct (String.eqb_spec p dst) as [->|Hne]; [reflexivity|].
  exfalso. apply Hchanged.
  destruct (files (set_file dst EmptyString m) src) as [content|];
    [|by apply files_set_file_ne].
  destruct (pickle_load h content) as [src_ring|e];
    [|by apply files_set_file_ne].
  destruct (snd (transform src_ring)); cbn [fst];
    by rewrite ?files_set_file_ne.
Qed.

Lemma transform_file_stdout (h : host) (transform : prog ring ring)
    (args : list string) (m : machine) :
  stdout (fst (transform_file h transform args m)) = stdout m.
Proof.
  rewrite transform_file_run.
  repeat match goal with
         | |- context [match ?x with _ => _ end] => destruct x
         end; reflexivity.
Qed.

(** X28: [main] writes to the destination of a transform and to nothing
    else.  A file differs after a run only if the run was a [--reset] or
    [--increase] run and the file is its second argument; and such a run
    prints nothing.  The [--show] branch, the planner branches and the
    usage text change no file. *)
Theorem main_changes_only_destination (h : host) (c : cli)
    (args : list string) (m : machine) :
  (forall p,
      files (fst (main h c args m)) p <> files m p ->
      (reset c = true \/ increase c = true) /\ args !! 1%nat = Some p) /\
  (reset c = true \/ increase c = true ->
   stdout (fst (main h c args m)) = stdout m).
Proof.
  unfold main. split.
  - intros p. destruct (reset c).
    { intros H%transform_file_touches. split; [by left|exact H]. }
    destruct (increase c).
    { intros H%transform_file_touches. split; [by right|exact H]. }
    destruct (show c); [by rewrite show_file_files|].
    destruct (objects (kinds c)); [by rewrite plan_files|].
    destruct (containers (kinds c)); [by rewrite plan_files|].
    destruct (accounts (kinds c)); [by rewrite plan_files|].
    by intros [].
  - destruct (reset c); [intros _; apply transform_file_stdout|].
    destruct (increase c); [intros _; apply transform_file_stdout|].
    by intros [|].
Qed.

Lemma main_changes_only_destination_witness :
  stdout (fst (main sample_host
                 (mkCli true false false (mkOptions false false false))
                 ["object.builder"; "new.builder"] sample_machine)) = [].
Proof.
  apply (proj2 (main_changes_only_destination sample_host
                  (mkCli true false false (mkOptions false false false))
                  ["object.builder"; "new.builder"] sample_machine)).
  by left.
Defined.

(** X29: missing arguments.  With any flag set and no argument, [main]
    raises [IndexError] and changes nothing.  With one argument only, a
    [--reset] or [--increase] run on an existing source raises
    [IndexError] before the destination is opened, and a planner run
    raises [IndexError] before the ring is loaded; nothing is changed or
    printed. *)
Theorem main_missing_arguments (h : host) (c : cli) (m : machine) :
  (reset c || increase c || show c || objects (kinds c)
   || containers (kinds c) || accounts (kinds c) = true ->
   main h c [] m = (m, Raise IndexError)) /\
  (forall a,
      reset c = true \/ increase c = true ->
      files m a <> None ->
      main h c [a] m = (m, Raise IndexError)) /\
  (forall a,
      reset c = false -> increase c = false -> show c = false ->
      objects (kinds c) || containers (kinds c) || accounts (kinds c) = true ->
      main h c [a] m = (m, Raise IndexError)).
Proof.
  unfold main. split; [|split].
  - intros Hflag.
    destruct (reset c); [by rewrite transform_file_run|].
    destruct (increase c); [by rewrite transform_file_run|].
    destruct (show c); [reflexivity|].
    destruct (objects (kinds c)); [reflexivity|].
    destruct (containers (kinds c)); [reflexivity|].
    destruct (accounts (kinds c)); [reflexivity|discriminate].
  - intros a Hflag Hsrc.
    assert (transform_file h ring_reset_partitions [a] m
            = (m, Raise IndexError) /\
            transform_file h ring_shift_power [a] m
            = (m, Raise IndexError)) as [Hr Hi].
    { rewrite !transform_file_run. cbn [lookup list_lookup].
      destruct (files m a); [by split|congruence]. }
    destruct (reset c); [exact Hr|].
    destruct Hflag as [? | ->]; [discriminate|exact Hi].
  - intros a -> -> -> Hkind.
    destruct (objects (kinds c)); [reflexivity|].
    destruct (containers (kinds c)); [reflexivity|].
    destruct (accounts (kinds c)); [reflexivity|discriminate].
Qed.

Lemma main_missing_arguments_witness :
  main sample_host (mkCli true false false (mkOptions false false false))
    ["object.builder"] sample_machine
  = (sample_machine, Raise IndexError).
Proof.
  apply (proj1 (proj2 (main_missing_arguments sample_host
                         (mkCli true false false (mkOptions false false false))
                         sample_machine))).
  - by left.
  - discriminate.
Defined.
